(** * WebAuthn demo server: credential repository, origin resolver and
      ceremony response handlers

    A shallow embedding of [src/libs/credential.ts] and of the response
    handlers and [getOrigin] of [src/libs/webauthn.ts], followed by the
    properties of the specification that were checked against them.

    Conventions of the embedding.
    - JavaScript strings are [string]s of 8-bit characters; the texts the
      code handles here (package names, hex fingerprints, base64url
      identifiers) are ASCII.
    - [undefined] is [None]; a property that may be missing is an [option].
    - A Node [Buffer] is a [list byte].
    - A [throw] is the left injection of a sum; what is thrown is a
      [js_error].
    - Firestore is a pair of finite maps from document id to document,
      and [set] stores a document as it is given. Where the id of a
      document comes out of the server itself (the base64url text of what
      the verifier returned, a key read from the store) it is taken to be
      an id Firestore accepts. Where it comes out of a request body
      ([removeCredential]) the check the client makes in [doc] is part
      of the model.
    - Every call that leaves the process (a Firestore call, a call of the
      verifier) is logged in a trace in the order the code issues it. A
      Firestore call takes effect when it is issued, or is rejected by
      the backend; which calls are rejected is an input of the model.
    - A promise the code creates and does not await is run in place: its
      effect on the store stays, its result and its rejection are lost. *)

From Stdlib Require Import ZArith Lia.
From Stdlib.Strings Require Import Ascii String Byte.
From stdpp Require Import base option list strings gmap fin_maps.

Local Open Scope string_scope.
Local Open Scope Z_scope.
Local Open Scope list_scope.

(** ** Values thrown by the code *)

Inductive js_error :=
  | ThrownString (s : string)            (* throw 'some text' *)
  | ErrorObject (name message : string). (* an Error raised by a library or the runtime *)

(** [error.message] as read in the catch block of /registerResponse:
    a thrown string has no such property. *)
Definition error_message (e : js_error) : option string :=
  match e with
  | ThrownString _ => None
  | ErrorObject _ m => Some m
  end.

Definition Unauthorized := ThrownString "Unauthorized.".
Definition NoChallenge := ThrownString "No challenge found.".
Definition HostnameNotConfigured := ThrownString "Hostname not configured.".
Definition OriginNotConfigured := ThrownString "Origin not configured.".
Definition VerificationFailed := ThrownString "User verification failed.".
Definition CredentialNotFound := ThrownString "Authenticating credential not found.".
Definition MalformedExtension := ThrownString "DPK data is missing!".
Definition StorageError := ErrorObject "FirestoreError" "backend failure".
Definition TypeError_split :=
  ErrorObject "TypeError" "Cannot read properties of undefined (reading 'split')".

(** ** JavaScript string primitives used by [getOrigin] *)

Module Js.

Definition code (c : ascii) : Z := Z.of_N (Ascii.N_of_ascii c).

(** Truthiness of a string-valued property: [undefined] and [''] are falsy. *)
Definition truthy (o : option string) : bool :=
  match o with
  | Some EmptyString => false
  | Some _ => true
  | None => false
  end.

(** [o || d] for a string-valued property. *)
Definition or_default (o : option string) (d : string) : string :=
  match o with
  | Some (String c r) => String c r
  | _ => d
  end.

Definition in_range (lo hi : Z) (c : ascii) : bool :=
  (lo <=? code c) && (code c <=? hi).

(** String.prototype.split with a one-character separator. *)
Fixpoint split (sep : ascii) (s : string) : list string :=
  match s with
  | EmptyString => [EmptyString]
  | String c rest =>
      if Ascii.eqb c sep then EmptyString :: split sep rest
      else match split sep rest with
           | h :: t => String c h :: t
           | [] => [String c EmptyString]
           end
  end.

(** White space: tab, line feed, vertical tab, form feed, carriage
    return and space. *)
Definition is_space (c : ascii) : bool :=
  in_range 9 13 c || (code c =? 32).

Fixpoint trim_start (s : string) : string :=
  match s with
  | String c rest => if is_space c then trim_start rest else s
  | EmptyString => EmptyString
  end.

Fixpoint trim_end (s : string) : string :=
  match s with
  | EmptyString => EmptyString
  | String c rest =>
      match trim_end rest with
      | EmptyString => if is_space c then EmptyString else String c EmptyString
      | r => String c r
      end
  end.

(** String.prototype.trim *)
Definition trim (s : string) : string := trim_end (trim_start s).

Definition hex_digit (c : ascii) : option Z :=
  if in_range 48 57 c then Some (code c - 48)
  else if in_range 97 102 c then Some (code c - 87)
  else if in_range 65 70 c then Some (code c - 55)
  else None.

(** The longest prefix of hexadecimal digits of [s], read as a number,
    with the count of digits read. *)
Fixpoint hex_prefix (s : string) (n : nat) (acc : Z) : nat * Z :=
  match s with
  | String c rest =>
      match hex_digit c with
      | Some d => hex_prefix rest (S n) (16 * acc + d)
      | None => (n, acc)
      end
  | EmptyString => (n, acc)
  end.

Definition strip_0x (s : string) : string :=
  match s with
  | String "0" (String "x" rest) => rest
  | String "0" (String "X" rest) => rest
  | _ => s
  end.

(** The value of the Number nearest to a non-negative integer: integers
    below 2^53 are exact, larger ones keep 53 significant bits (ties to
    even). Infinity is not told apart from a large finite value: both
    end as the byte 0 in [to_uint8], the only reader of the result. *)
Definition to_number (v : Z) : Z :=
  if v <? 2 ^ 53 then v
  else
    let k := Z.log2 v - 52 in
    let q := Z.shiftr v k in
    let r := v - Z.shiftl q k in
    let half := Z.shiftl 1 (k - 1) in
    let q' := if (half <? r) || ((r =? half) && Z.odd q) then q + 1 else q in
    Z.shiftl q' k.

(** [parseInt(s, 16)]; [None] is NaN. *)
Definition parseInt16 (s : string) : option Z :=
  let s1 := trim_start s in
  let '(neg, s2) :=
    match s1 with
    | String "-" r => (true, r)
    | String "+" r => (false, r)
    | _ => (false, s1)
    end in
  match hex_prefix (strip_0x s2) 0 0 with
  | (O, _) => None
  | (_, v) => Some (if neg then - to_number v else to_number v)
  end.

(** The byte stored for an array element by [Buffer.from(array)]:
    NaN becomes 0, any other number is taken modulo 256. *)
Definition to_uint8 (n : option Z) : byte :=
  match n with
  | None => x00
  | Some v => default x00 (Byte.of_N (Z.to_N (v mod 256)))
  end.

End Js.

(** ** The base64url package: [encode] *)

Module Base64url.

Definition alphabet : string :=
  "ABCDEFGHIJKLMNOPQRSTUVWXYZabcdefghijklmnopqrstuvwxyz0123456789+/".

Definition sextet (n : Z) : ascii :=
  default "="%char (String.get (Z.to_nat n) alphabet).

Definition octet (b : byte) : Z := Z.of_N (Byte.to_N b).

(** [buffer.toString('base64')] *)
Fixpoint base64 (bs : list byte) : string :=
  match bs with
  | [] => EmptyString
  | [a] =>
      let a := octet a in
      String (sextet (Z.shiftr a 2))
        (String (sextet (Z.shiftl (Z.land a 3) 4)) "==")
  | [a; b] =>
      let a := octet a in
      let b := octet b in
      String (sextet (Z.shiftr a 2))
        (String (sextet (Z.lor (Z.shiftl (Z.land a 3) 4) (Z.shiftr b 4)))
           (String (sextet (Z.shiftl (Z.land b 15) 2)) "="))
  | a :: b :: c :: rest =>
      let a := octet a in
      let b := octet b in
      let c := octet c in
      String (sextet (Z.shiftr a 2))
        (String (sextet (Z.lor (Z.shiftl (Z.land a 3) 4) (Z.shiftr b 4)))
           (String (sextet (Z.lor (Z.shiftl (Z.land b 15) 2) (Z.shiftr c 6)))
              (String (sextet (Z.land c 63)) (base64 rest))))
  end.

(** [fromBase64]: drop the padding, replace [+] by [-] and [/] by [_]. *)
Fixpoint fromBase64 (s : string) : string :=
  match s with
  | EmptyString => EmptyString
  | String c rest =>
      if Ascii.eqb c "="%char then fromBase64 rest
      else if Ascii.eqb c "+"%char then String "-"%char (fromBase64 rest)
      else if Ascii.eqb c "/"%char then String "_"%char (fromBase64 rest)
      else String c (fromBase64 rest)
  end.

(** [base64url.encode] applied to a Buffer. *)
Definition encode (bs : list byte) : string := fromBase64 (base64 bs).

(** [base64url.encode] applied to an array of numbers, as [getOrigin]
    does under its [@ts-ignore]: the array goes through [Buffer.from]. *)
Definition encode_array (ns : list (option Z)) : string :=
  encode (Js.to_uint8 <$> ns).

End Base64url.

(** ** Origin resolver: [getOrigin] of webauthn.ts *)

Module Origin.

(** The two variables of [process.env] the resolver reads. *)
Record Env := {
  ANDROID_PACKAGENAME : option string;
  ANDROID_SHA256HASH : option string
}.

(** The character class of [appRe = /^[a-zA-z0-9_.]+/], as written in
    the source: its second range runs from [A] to lower-case [z]. *)
Definition appRe_class (c : ascii) : bool :=
  Js.in_range 97 122 c || Js.in_range 65 122 c || Js.in_range 48 57 c
  || (Js.code c =? 95) || (Js.code c =? 46).

Fixpoint take_class (cls : ascii -> bool) (s : string) : string :=
  match s with
  | String c rest => if cls c then String c (take_class cls rest) else EmptyString
  | EmptyString => EmptyString
  end.

(** [userAgent.match(re)] for an anchored [^[...]+]: the longest
    non-empty prefix in the class, or [null]. *)
Definition match_prefix (cls : ascii -> bool) (s : string) : option string :=
  match take_class cls s with
  | EmptyString => None
  | tok => Some tok
  end.

(** The [for] loop over [package_names], from index [i]. *)
Fixpoint scan (appName : string) (names : list string) (hashes : list string)
    (i : nat) (origin : string) : js_error + string :=
  match names with
  | [] => inr origin
  | name :: names' =>
      if String.eqb appName name then
        match hashes !! i with
        | None => inl TypeError_split
        | Some h =>
            let octArray := Js.parseInt16 <$> Js.split ":" h in
            let androidHash := Base64url.encode_array octArray in
            inr ("android:apk-key-hash:" +:+ androidHash)
        end
      else scan appName names' hashes (S i) origin
  end.

Definition getOrigin (env : Env) (_origin : string) (userAgent : option string)
    : js_error + string :=
  let origin := _origin in
  if negb (Js.truthy userAgent) then inr origin
  else
    match match_prefix appRe_class (default EmptyString userAgent) with
    | Some appName =>
        if Js.truthy (ANDROID_PACKAGENAME env) && Js.truthy (ANDROID_SHA256HASH env)
        then
          let package_names :=
            Js.trim <$> Js.split "," (default EmptyString (ANDROID_PACKAGENAME env)) in
          let hashes :=
            Js.trim <$> Js.split "," (default EmptyString (ANDROID_SHA256HASH env)) in
          scan appName package_names hashes 0 origin
        else inr origin
    | None => inr origin
    end.

End Origin.

(** ** Data model *)

(** [UserInfo] of public/scripts/common.ts: the authenticated principal
    placed in [res.locals.user]. *)
Module Common.
Record UserInfo := {
  user_id : string;
  name : string;
  displayName : string;
  picture : string
}.
End Common.

(** [StoredCredential] of credential.ts. [clientExtensionResults] is
    opaque to the server and kept as its JSON text. *)
Record StoredCredential := {
  user_id : string;
  credentialID : string;
  credentialPublicKey : string;
  counter : Z;
  aaguid : option string;
  registered : option Z;
  user_verifying : bool;
  authenticatorAttachment : string;
  transports : option (list string);
  browser : option string;
  os : option string;
  platform : option string;
  last_used : option Z;
  clientExtensionResults : option string;
  dpks : option (list string)
}.

(** [StoredDevicePublicKey] of credential.ts. *)
Record StoredDevicePublicKey := {
  dpk_credentialID : string;
  dpk : string
}.

(** The external verifier (@simplewebauthn/server), as the handlers use it. *)

Record RegistrationCredentialJSON := {
  reg_id : string;
  reg_response : string;
  reg_transports : option (list string);
  reg_clientExtensionResults : option string
}.

Record AuthenticationCredentialJSON := {
  id : string;
  auth_response : string
}.

Record AuthenticatorDevice := {
  dev_credentialPublicKey : list byte;
  dev_credentialID : list byte;
  dev_counter : Z;
  dev_transports : option (list string)
}.

Record VerifyRegistrationOpts := {
  reg_credential : RegistrationCredentialJSON;
  reg_expectedChallenge : string;
  reg_expectedOrigin : string;
  reg_expectedRPID : string
}.

Record VerifyAuthenticationOpts := {
  credential : AuthenticationCredentialJSON;
  expectedChallenge : string;
  expectedOrigin : string;
  expectedRPID : string;
  authenticator : AuthenticatorDevice
}.

Record DevicePublicKeyOutput := { out_dpk : option (list byte) }.

Record AuthenticatorExtensionResults := {
  devicePublicKey : option DevicePublicKeyOutput
}.

Record RegistrationInfo := {
  info_credentialPublicKey : list byte;
  info_credentialID : list byte;
  info_counter : Z;
  userVerified : bool;
  reg_authenticatorExtensionResults : option AuthenticatorExtensionResults
}.

Record VerifiedRegistrationResponse := {
  reg_verified : bool;
  registrationInfo : option RegistrationInfo
}.

Record AuthenticationInfo := {
  newCounter : Z;
  authenticatorExtensionResults : option AuthenticatorExtensionResults
}.

Record VerifiedAuthenticationResponse := {
  verified : bool;
  authenticationInfo : AuthenticationInfo
}.

(** The verifier either returns a verification or throws. *)
Record Verifier := {
  verifyRegistrationResponse :
    VerifyRegistrationOpts -> js_error + VerifiedRegistrationResponse;
  verifyAuthenticationResponse :
    VerifyAuthenticationOpts -> js_error + VerifiedAuthenticationResponse
}.

(** ** The world outside the handlers *)

(** The two Firestore collections, by document id. *)
Record Firestore := {
  credentials_coll : gmap string StoredCredential;
  dpks_coll : gmap string StoredDevicePublicKey
}.

(** Calls that leave the process, in the order they are issued. *)
Inductive event :=
  | CredentialsQuery (uid : string)
  | CredentialGet (cid : string)
  | CredentialSet (c : StoredCredential)
  | CredentialDelete (cid : string)
  | DpksQuery (cid : string)
  | DpkSet (row : StoredDevicePublicKey)
  | DpkDelete (d : string)
  | RegistrationVerify (o : VerifyRegistrationOpts)
  | AuthenticationVerify (o : VerifyAuthenticationOpts).

(** [faults] tells, for the Firestore calls to come, which ones the
    backend rejects ([true]); once the list is used up, calls succeed. *)
Record World := {
  firestore : Firestore;
  faults : list bool;
  trace : list event
}.

(** Computations that read and write the world and may throw. *)
Definition M (A : Type) : Type := World -> (js_error + A) * World.

Definition ret {A} (a : A) : M A := fun w => (inr a, w).

Definition throw {A} (e : js_error) : M A := fun w => (inl e, w).

Definition bind {A B} (m : M A) (k : A -> M B) : M B :=
  fun w =>
    match m w with
    | (inr a, w') => k a w'
    | (inl e, w') => (inl e, w')
    end.

Notation "x <- m ;; k" := (bind m (fun x => k))
  (at level 100, m at next level, right associativity).
Notation "m ;;; k" := (bind m (fun _ => k))
  (at level 100, right associativity).

(** A value that was computed without the world, or its exception. *)
Definition lift {A} (r : js_error + A) : M A := fun w => (r, w).

Definition emit (e : event) : M unit :=
  fun w => (inr tt, {| firestore := firestore w; faults := faults w;
                       trace := trace w ++ [e] |}).

(** A promise that is created and not awaited: its effect on the world
    stays, its result and its rejection are dropped. *)
Definition detached {A} (m : M A) : M unit :=
  fun w => (inr tt, snd (m w)).

(** [for (let x of xs) { ... await f(x) ... }], collecting the results. *)
Fixpoint for_each {A B} (f : A -> M B) (xs : list A) : M (list B) :=
  match xs with
  | [] => ret []
  | x :: xs' => y <- f x ;; ys <- for_each f xs' ;; ret (y :: ys)
  end.

(** One Firestore call: logged when issued, then rejected or applied. *)
Definition call {A} (e : event) (f : Firestore -> A * Firestore) : M A :=
  fun w =>
    let tr := trace w ++ [e] in
    match faults w with
    | true :: rest =>
        (inl StorageError, {| firestore := firestore w; faults := rest; trace := tr |})
    | fl =>
        let '(a, fs) := f (firestore w) in
        (inr a, {| firestore := fs; faults := tail fl; trace := tr |})
    end.

(** ** The Firestore client: [collection(name).doc(path)]

    Before it builds a document reference the client checks the path, and
    throws an [Error] without calling the backend. The path must be a
    non-empty string that does not contain two slashes in a row. It is
    split at the slashes, empty segments (a leading or a trailing slash)
    are dropped, and with the name of the collection in front the
    segments must come in pairs. One segment names a document of the
    collection itself, three or more a document of a sub-collection.
    The texts of the errors are abridged. *)

Module Doc.

Definition EmptyPath := ErrorObject "Error" "Path must be a non-empty string.".
Definition DoubleSlash := ErrorObject "Error" "Paths must not contain //.".
Definition NotADocument :=
  ErrorObject "Error" "Your path does not contain an even number of components.".

(** [path.indexOf('//') >= 0] *)
Fixpoint has_double_slash (s : string) : bool :=
  match s with
  | String c rest =>
      match rest with
      | String d _ =>
          (Ascii.eqb c "/" && Ascii.eqb d "/") || has_double_slash rest
      | EmptyString => false
      end
  | EmptyString => false
  end.

(** [relativePath.split('/').filter(segment => segment.length > 0)] *)
Definition segments (path : string) : list string :=
  filter (fun segment => segment <> EmptyString) (Js.split "/" path).

Inductive reference :=
  | Document (id : string)             (* a document of the collection *)
  | SubDocument (path : list string).  (* a document of a sub-collection *)

Definition doc (path : string) : js_error + reference :=
  if String.eqb path EmptyString then inl EmptyPath
  else if has_double_slash path then inl DoubleSlash
  else
    match segments path with
    | [id] => inr (Document id)
    | segs =>
        if Nat.even (length segs) then inl NotADocument
        else inr (SubDocument segs)
    end.

End Doc.

(** ** Credential repository: credential.ts *)

Module Credential.

Definition newer (a b : StoredCredential) : bool :=
  match registered a, registered b with
  | Some x, Some y => y <? x
  | _, _ => false
  end.

(** Insertion in a list kept in descending order of [registered]. *)
Fixpoint insert_desc (c : StoredCredential) (l : list StoredCredential) :=
  match l with
  | [] => [c]
  | d :: l' => if newer d c then d :: insert_desc c l' else c :: d :: l'
  end.

Definition order_by_registered_desc (l : list StoredCredential) :=
  foldr insert_desc [] l.

(** [.where('user_id', '==', uid).orderBy('registered', 'desc')]: the
    documents of the user that have a [registered] field, newest first. *)
Definition query_credentials (uid : string) (fs : Firestore)
    : list StoredCredential :=
  order_by_registered_desc
    (filter (fun c => user_id c = uid /\ is_Some (registered c))
       (snd <$> map_to_list (credentials_coll fs))).

(** [.where('credentialID', '==', cid)] on the [dpks] collection,
    keeping the [dpk] field of each document found. *)
Definition query_dpks (cid : string) (fs : Firestore) : list string :=
  dpk <$> filter (fun r => dpk_credentialID r = cid)
            (snd <$> map_to_list (dpks_coll fs)).

Definition getDevicePublicKeys (credential_id : string) : M (list string) :=
  call (DpksQuery credential_id) (fun fs => (query_dpks credential_id fs, fs)).

Definition with_dpks (c : StoredCredential) (d : list string) : StoredCredential :=
  {| user_id := user_id c; credentialID := credentialID c;
     credentialPublicKey := credentialPublicKey c; counter := counter c;
     aaguid := aaguid c; registered := registered c;
     user_verifying := user_verifying c;
     authenticatorAttachment := authenticatorAttachment c;
     transports := transports c; browser := browser c; os := os c;
     platform := platform c; last_used := last_used c;
     clientExtensionResults := clientExtensionResults c;
     dpks := Some d |}.

Definition getCredentials (uid : string) : M (list StoredCredential) :=
  results <- call (CredentialsQuery uid) (fun fs => (query_credentials uid fs, fs)) ;;
  for_each (fun cred =>
              d <- getDevicePublicKeys (credentialID cred) ;;
              ret (with_dpks cred d)) results.

(** [doc.data()] is [undefined] for a document that does not exist. *)
Definition getCredential (credential_id : string) : M (option StoredCredential) :=
  call (CredentialGet credential_id)
    (fun fs => (credentials_coll fs !! credential_id, fs)).

Definition storeCredential (c : StoredCredential) : M unit :=
  call (CredentialSet c)
    (fun fs => (tt, {| credentials_coll := <[credentialID c := c]> (credentials_coll fs);
                       dpks_coll := dpks_coll fs |})).

Definition removeDevicePublicKey (d : string) : M unit :=
  call (DpkDelete d)
    (fun fs => (tt, {| credentials_coll := credentials_coll fs;
                       dpks_coll := delete d (dpks_coll fs) |})).

Definition storeDevicePublicKey (row : StoredDevicePublicKey) : M unit :=
  call (DpkSet row)
    (fun fs => (tt, {| credentials_coll := credentials_coll fs;
                       dpks_coll := <[dpk row := row]> (dpks_coll fs) |})).

(** [getDpks.forEach(item => removeDevicePublicKey(item))] *)
Fixpoint forEach_remove (items : list string) : M unit :=
  match items with
  | [] => ret tt
  | item :: items' => detached (removeDevicePublicKey item) ;;; forEach_remove items'
  end.

(** [credential_id] is the [credId] of the request body, as it came.
    The reference is built after the deletions of the device keys were
    issued. A document of a sub-collection is in neither of the two
    collections: its deletion is a call that leaves them as they are. *)
Definition delete_reference (ref : Doc.reference) : M unit :=
  match ref with
  | Doc.Document id =>
      call (CredentialDelete id)
        (fun fs => (tt, {| credentials_coll := delete id (credentials_coll fs);
                           dpks_coll := dpks_coll fs |}))
  | Doc.SubDocument path =>
      call (CredentialDelete (String.concat "/" path)) (fun fs => (tt, fs))
  end.

Definition removeCredential (credential_id : string) : M unit :=
  getDpks <- getDevicePublicKeys credential_id ;;
  forEach_remove getDpks ;;;
  ref <- lift (Doc.doc credential_id) ;;
  delete_reference ref.

End Credential.

(** ** Ceremony response handlers: webauthn.ts *)

Module WebAuthn.

(** [res.locals], filled in by the middleware in front of the handlers. *)
Record Locals := {
  user : option Common.UserInfo;
  hostname : option string;
  origin : option string
}.

(** The ceremony state kept in [req.session]. *)
Record Session := {
  challenge : option string;
  timeout : option Z;
  type : option string
}.

(** [req.useragent], as parsed by the user-agent middleware. *)
Record UserAgent := {
  ua_browser : option string;
  ua_os : option string;
  ua_platform : option string
}.

(** One request: [now] is what [getNow()] returns while it is handled. *)
Record Request (B : Type) := {
  locals : Locals;
  session : Session;
  body : B;
  header_User_Agent : option string;
  useragent : option UserAgent;
  now : Z
}.
Arguments locals {B} _.
Arguments session {B} _.
Arguments body {B} _.
Arguments header_User_Agent {B} _.
Arguments useragent {B} _.
Arguments now {B} _.

Inductive reply :=
  | JsonRegistrationCredential (c : RegistrationCredentialJSON)
  | JsonStoredCredential (c : StoredCredential)
  | JsonFailureMessage (message : option string)  (* { status: false, error: error.message } *)
  | JsonFailure (error : js_error).               (* { status: false, error } *)

(** How a handler ends: a 200 reply, the catch block (the error is
    logged and a 400 reply sent), or an exception thrown outside any
    [try], which leaves the request without a reply. *)
Inductive outcome :=
  | Ok200 (r : reply)
  | Caught (e : js_error) (r : reply)
  | Uncaught (e : js_error).

Definition failure (o : outcome) : option js_error :=
  match o with
  | Ok200 _ => None
  | Caught e _ => Some e
  | Uncaught e => Some e
  end.

(** [delete req.session.challenge] and its two siblings. *)
Definition delete_challenge (s : Session) : Session :=
  {| challenge := None; timeout := timeout s; type := type s |}.
Definition delete_timeout (s : Session) : Session :=
  {| challenge := challenge s; timeout := None; type := type s |}.
Definition delete_type (s : Session) : Session :=
  {| challenge := challenge s; timeout := timeout s; type := None |}.

(** [storedCred.counter = c; storedCred.last_used = t] on the object
    held in memory. *)
Definition with_counter_last_used (c : StoredCredential) (n t : Z) : StoredCredential :=
  {| user_id := user_id c; credentialID := credentialID c;
     credentialPublicKey := credentialPublicKey c; counter := n;
     aaguid := aaguid c; registered := registered c;
     user_verifying := user_verifying c;
     authenticatorAttachment := authenticatorAttachment c;
     transports := transports c; browser := browser c; os := os c;
     platform := platform c; last_used := Some t;
     clientExtensionResults := clientExtensionResults c;
     dpks := dpks c |}.

Section Handlers.

Variable V : Verifier.
Variable env : Origin.Env.
(** [base64url.toBuffer], whose result only the verifier reads. *)
Variable toBuffer : string -> list byte.

Definition verify_registration (o : VerifyRegistrationOpts)
    : M VerifiedRegistrationResponse :=
  emit (RegistrationVerify o) ;;; lift (verifyRegistrationResponse V o).

Definition verify_authentication (o : VerifyAuthenticationOpts)
    : M VerifiedAuthenticationResponse :=
  emit (AuthenticationVerify o) ;;; lift (verifyAuthenticationResponse V o).

(** The part of /registerResponse that follows a successful
    verification (lines 258-291). *)
Definition register_verified (req : Request RegistrationCredentialJSON)
    (u : Common.UserInfo) (info : RegistrationInfo) : M unit :=
  let credential := body req in
  let base64PublicKey := Base64url.encode (info_credentialPublicKey info) in
  let base64CredentialID := Base64url.encode (info_credentialID info) in
  Credential.storeCredential
    {| user_id := Common.user_id u;
       credentialID := base64CredentialID;
       credentialPublicKey := base64PublicKey;
       counter := info_counter info;
       aaguid := None;
       registered := Some (now req);
       user_verifying := userVerified info;
       authenticatorAttachment := Js.or_default (type (session req)) "undefined";
       transports := reg_transports credential;
       browser := useragent req ≫= ua_browser;
       os := useragent req ≫= ua_os;
       platform := useragent req ≫= ua_platform;
       last_used := None;
       clientExtensionResults := reg_clientExtensionResults credential;
       dpks := None |} ;;;
  match reg_authenticatorExtensionResults info ≫= devicePublicKey with
  | Some d =>
      match out_dpk d with
      | None => throw MalformedExtension
      | Some k =>
          let base64Dpk := Base64url.encode k in
          Credential.storeDevicePublicKey
            {| dpk_credentialID := base64CredentialID; dpk := base64Dpk |}
      end
  | None => ret tt
  end.

(** The [try] block of /registerResponse. *)
Definition registerResponse_try (req : Request RegistrationCredentialJSON)
    : M RegistrationCredentialJSON :=
  match user (locals req) with
  | None => throw Unauthorized
  | Some u =>
      if negb (Js.truthy (challenge (session req))) then throw NoChallenge
      else if negb (Js.truthy (hostname (locals req))) then throw HostnameNotConfigured
      else if negb (Js.truthy (origin (locals req))) then throw OriginNotConfigured
      else
        let credential := body req in
        let expectedChallenge := default EmptyString (challenge (session req)) in
        let expectedRPID := default EmptyString (hostname (locals req)) in
        expectedOrigin <-
          lift (Origin.getOrigin env (default EmptyString (origin (locals req)))
                  (header_User_Agent req)) ;;
        verification <-
          verify_registration
            {| reg_credential := credential;
               reg_expectedChallenge := expectedChallenge;
               reg_expectedOrigin := expectedOrigin;
               reg_expectedRPID := expectedRPID |} ;;
        match reg_verified verification, registrationInfo verification with
        | true, Some info => register_verified req u info ;;; ret credential
        | _, _ => throw VerificationFailed
        end
  end.

(** /registerResponse: the reply, and the session as the handler
    leaves it. *)
Definition registerResponse (req : Request RegistrationCredentialJSON)
    (w : World) : (outcome * Session) * World :=
  let cleared := delete_type (delete_timeout (delete_challenge (session req))) in
  match registerResponse_try req w with
  | (inr credential, w') =>
      ((Ok200 (JsonRegistrationCredential credential), cleared), w')
  | (inl error, w') =>
      ((Caught error (JsonFailureMessage (error_message error)), cleared), w')
  end.

(** The part of /authResponse that follows a successful verification
    (lines 412-432); it yields the credential object as it then is
    in memory. *)
Definition auth_verified (req : Request AuthenticationCredentialJSON)
    (storedCred : StoredCredential) (info : AuthenticationInfo)
    : M StoredCredential :=
  let storedCred := with_counter_last_used storedCred (newCounter info) (now req) in
  match authenticatorExtensionResults info ≫= devicePublicKey with
  | Some d =>
      match out_dpk d with
      | None => throw MalformedExtension
      | Some k =>
          storedDpks <- Credential.getDevicePublicKeys (credentialID storedCred) ;;
          let base64Dpk := Base64url.encode k in
          (if bool_decide (base64Dpk ∈ storedDpks) then ret tt
           else Credential.storeDevicePublicKey
                  {| dpk_credentialID := credentialID storedCred;
                     dpk := base64Dpk |}) ;;;
          ret storedCred
      end
  | None => ret storedCred
  end.

(** The [try] block of /authResponse. *)
Definition authResponse_try (req : Request AuthenticationCredentialJSON)
    (u : Common.UserInfo) (expectedChallenge expectedRPID expectedOrigin : string)
    : M StoredCredential :=
  let claimedCred := body req in
  credentials <- Credential.getCredentials (Common.user_id u) ;;
  match List.find (fun cred => String.eqb (credentialID cred) (id claimedCred))
          credentials with
  | None => throw CredentialNotFound
  | Some storedCred =>
      let authenticator :=
        {| dev_credentialPublicKey := toBuffer (credentialPublicKey storedCred);
           dev_credentialID := toBuffer (credentialID storedCred);
           dev_counter := counter storedCred;
           dev_transports := transports storedCred |} in
      verification <-
        verify_authentication
          {| credential := claimedCred;
             expectedChallenge := expectedChallenge;
             expectedOrigin := expectedOrigin;
             expectedRPID := expectedRPID;
             authenticator := authenticator |} ;;
      if negb (verified verification) then throw VerificationFailed
      else auth_verified req storedCred (authenticationInfo verification)
  end.

(** /authResponse. Its three guards and the call of [getOrigin] stand
    before the [try]: what they throw is not caught. *)
Definition authResponse (req : Request AuthenticationCredentialJSON)
    (w : World) : (outcome * Session) * World :=
  match user (locals req) with
  | None => ((Uncaught Unauthorized, session req), w)
  | Some u =>
      if negb (Js.truthy (hostname (locals req)))
      then ((Uncaught HostnameNotConfigured, session req), w)
      else if negb (Js.truthy (origin (locals req)))
      then ((Uncaught OriginNotConfigured, session req), w)
      else
        let expectedChallenge := Js.or_default (challenge (session req)) EmptyString in
        let expectedRPID := default EmptyString (hostname (locals req)) in
        match Origin.getOrigin env (default EmptyString (origin (locals req)))
                (header_User_Agent req) with
        | inl e => ((Uncaught e, session req), w)
        | inr expectedOrigin =>
            let cleared := delete_timeout (delete_challenge (session req)) in
            match authResponse_try req u expectedChallenge expectedRPID
                    expectedOrigin w with
            | (inr storedCred, w') =>
                ((Ok200 (JsonStoredCredential storedCred), cleared), w')
            | (inl error, w') =>
                ((Caught error (JsonFailure error), cleared), w')
            end
        end
  end.

End Handlers.

(** *** The two management handlers and the two request handlers *)

(** WEBAUTHN_TIMEOUT: five minutes, in milliseconds. *)
Definition WEBAUTHN_TIMEOUT : Z := 1000 * 60 * 5.

(** What these four handlers put on the wire. *)
Inductive json :=
  | JsonCredentials (l : list StoredCredential)
  | JsonStatus (status : bool) (error : option js_error)
  | JsonOptions (options_json : string).

(** A reply with its HTTP status, or an exception thrown outside any
    [try], which leaves the request without a reply. *)
Inductive response :=
  | Sent (code : Z) (body : json)
  | Unanswered (e : js_error).

(** /getCredentials: the guard stands before the [try]; whatever the
    repository throws is answered with 401 and the text [Unauthorized]. *)
Definition getCredentials_handler (req : Request unit) (w : World)
    : response * World :=
  match user (locals req) with
  | None => (Unanswered Unauthorized, w)
  | Some u =>
      match Credential.getCredentials (Common.user_id u) w with
      | (inr credentials, w') => (Sent 200 (JsonCredentials credentials), w')
      | (inl _, w') =>
          (Sent 401 (JsonStatus false (Some (ThrownString "Unauthorized"))), w')
      end
  end.

(** /removeCredential, for a body that carries a [credId] string. *)
Definition removeCredential_handler (req : Request string) (w : World)
    : response * World :=
  match user (locals req) with
  | None => (Unanswered Unauthorized, w)
  | Some _ =>
      let credId := body req in
      match Credential.removeCredential credId w with
      | (inr _, w') => (Sent 200 (JsonStatus true None), w')
      | (inl _, w') => (Sent 400 (JsonStatus false None), w')
      end
  end.

(** The parts of [WebAuthnRegistrationObject] (common.ts) that
    /registerRequest reads; [extensions] is opaque and kept as JSON text. *)
Record SelectionJSON := {
  sel_authenticatorAttachment : option string;
  sel_residentKey : option string;
  sel_userVerification : option string
}.

Record UserEntityJSON := {
  ent_name : option string;
  ent_displayName : option string
}.

Record WebAuthnRegistrationObject := {
  cre_authenticatorSelection : option SelectionJSON;
  cre_attestation : option string;
  cre_user : option UserEntityJSON;
  cre_extensions : option string;
  cre_customTimeout : option Z
}.

(** The parts of [WebAuthnAuthenticationObject] that /authRequest reads. *)
Record WebAuthnAuthenticationObject := {
  ask_userVerification : option string;
  ask_customTimeout : option Z
}.

(** The arguments the handlers give to the two option generators of
    @simplewebauthn/server. *)
Record GenerateRegistrationOpts := {
  rpName : string;
  rpID : string;
  userID : string;
  userName : string;
  userDisplayName : string;
  gen_timeout : Z;
  attestationType : string;
  gen_authenticatorSelection : SelectionJSON;
  gen_extensions : option string
}.

Record GenerateAuthenticationOpts := {
  ga_timeout : Z;
  ga_userVerification : string;
  ga_rpID : option string
}.

(** The options a generator returns: the challenge the handlers read,
    and the whole object as it is sent to the client. *)
Record IssuedOptions := {
  issued_challenge : string;
  issued_json : string
}.

(** The generators draw the challenge at random: [entropy] stands for
    the random bytes of one call. They return options or throw. *)
Record Generator := {
  generateRegistrationOptions :
    list byte -> GenerateRegistrationOpts -> js_error + IssuedOptions;
  generateAuthenticationOptions :
    list byte -> GenerateAuthenticationOpts -> js_error + IssuedOptions
}.

(** [n || d] for a number: [undefined] and 0 are falsy. *)
Definition number_or (n : option Z) (d : Z) : Z :=
  match n with
  | Some v => if v =? 0 then d else v
  | None => d
  end.

(** [a || b || d] for strings. *)
Definition first_truthy (a b : option string) (d : string) : string :=
  Js.or_default a (Js.or_default b d).

(** [x === a || x === b || ...] for a property that may be missing. *)
Definition one_of (x : option string) (allowed : list string) : bool :=
  match x with
  | Some v => existsb (String.eqb v) allowed
  | None => false
  end.

(** A field that is only set when its value is one of [allowed]. *)
Definition keep_if_one_of (x : option string) (allowed : list string)
    : option string :=
  if one_of x allowed then x else None.

(** [new TextEncoder().encode(s)]: code units below 128 are one byte,
    the others two. *)
Definition utf8_char (c : ascii) : list byte :=
  let n := Js.code c in
  if n <? 128 then [Js.to_uint8 (Some n)]
  else [Js.to_uint8 (Some (Z.lor 192 (Z.shiftr n 6)));
        Js.to_uint8 (Some (Z.lor 128 (Z.land n 63)))].

Fixpoint utf8 (s : string) : list byte :=
  match s with
  | EmptyString => []
  | String c rest => utf8_char c ++ utf8 rest
  end.

Section Requests.

Variable G : Generator.
(** [process.env.PROJECT_NAME] *)
Variable PROJECT_NAME : option string.
(** [createHash('sha256').update(data).digest()] *)
Variable sha256 : list byte -> list byte.

Definition RP_NAME : string := Js.or_default PROJECT_NAME "WebAuthn Demo".

(** The argument of [generateRegistrationOptions] (lines 164-214). *)
Definition registration_opts (googleUser : Common.UserInfo) (hostname : string)
    (creationOptions : WebAuthnRegistrationObject) : GenerateRegistrationOpts :=
  let sel := cre_authenticatorSelection creationOptions in
  let aa := sel ≫= sel_authenticatorAttachment in
  let rk := sel ≫= sel_residentKey in
  let uv := sel ≫= sel_userVerification in
  let cp := cre_attestation creationOptions in
  let attestation :=
    if one_of cp ["none"; "indirect"; "direct"; "enterprise"]
    then default "none" cp else "none" in
  let name :=
    first_truthy (cre_user creationOptions ≫= ent_name)
      (Some (Common.name googleUser)) "Unnamed User" in
  let displayName :=
    first_truthy (cre_user creationOptions ≫= ent_displayName)
      (Some (Common.displayName googleUser)) "Unnamed User" in
  let data := utf8 (name +:+ displayName) in
  let userId := sha256 data in
  {| rpName := RP_NAME;
     rpID := hostname;
     userID := Base64url.encode userId;
     userName := name;
     userDisplayName := displayName;
     gen_timeout := number_or (cre_customTimeout creationOptions) WEBAUTHN_TIMEOUT;
     attestationType := attestation;
     gen_authenticatorSelection :=
       {| sel_authenticatorAttachment :=
            keep_if_one_of aa ["platform"; "cross-platform"];
          sel_residentKey :=
            keep_if_one_of rk ["required"; "preferred"; "discouraged"];
          sel_userVerification :=
            keep_if_one_of uv ["required"; "preferred"; "discouraged"] |};
     gen_extensions := cre_extensions creationOptions |}.

Definition empty_registration_object : WebAuthnRegistrationObject :=
  {| cre_authenticatorSelection := None; cre_attestation := None;
     cre_user := None; cre_extensions := None; cre_customTimeout := None |}.

(** /registerRequest: everything happens inside the [try]; the session
    is written after the options were generated. A missing body counts
    as the empty object. *)
Definition registerRequest (req : Request (option WebAuthnRegistrationObject))
    (entropy : list byte) : response * Session :=
  match user (locals req) with
  | None => (Sent 400 (JsonStatus false (Some Unauthorized)), session req)
  | Some googleUser =>
      if negb (Js.truthy (hostname (locals req)))
      then (Sent 400 (JsonStatus false (Some HostnameNotConfigured)), session req)
      else
        let creationOptions := default empty_registration_object (body req) in
        let aa := cre_authenticatorSelection creationOptions
                    ≫= sel_authenticatorAttachment in
        let enrollmentType := Js.or_default aa "undefined" in
        match generateRegistrationOptions G entropy
                (registration_opts googleUser
                   (default EmptyString (hostname (locals req))) creationOptions) with
        | inl error => (Sent 400 (JsonStatus false (Some error)), session req)
        | inr options =>
            (Sent 200 (JsonOptions (issued_json options)),
             {| challenge := Some (issued_challenge options);
                timeout := Some (now req + WEBAUTHN_TIMEOUT);
                type := Some enrollmentType |})
        end
  end.

Definition TypeError_userVerification :=
  ErrorObject "TypeError"
    "Cannot read properties of undefined (reading 'userVerification')".

(** /authRequest: the user guard stands before the [try]; the hostname is
    passed on as it is, configured or not. *)
Definition authRequest (req : Request (option WebAuthnAuthenticationObject))
    (entropy : list byte) : response * Session :=
  match user (locals req) with
  | None => (Unanswered Unauthorized, session req)
  | Some _ =>
      match body req with
      | None =>
          (Sent 400 (JsonStatus false (Some TypeError_userVerification)), session req)
      | Some requestOptions =>
          let userVerification :=
            Js.or_default (ask_userVerification requestOptions) "preferred" in
          let timeout' := number_or (ask_customTimeout requestOptions) WEBAUTHN_TIMEOUT in
          let rpID := hostname (locals req) in
          match generateAuthenticationOptions G entropy
                  {| ga_timeout := timeout';
                     ga_userVerification := userVerification;
                     ga_rpID := rpID |} with
          | inl error => (Sent 400 (JsonStatus false (Some error)), session req)
          | inr options =>
              (Sent 200 (JsonOptions (issued_json options)),
               {| challenge := Some (issued_challenge options);
                  timeout := Some (now req + WEBAUTHN_TIMEOUT);
                  type := type (session req) |})
          end
      end
  end.

End Requests.

End WebAuthn.

(** ** Notions used to state the properties *)

(** The character class the specification names for the leading token
    of the user-agent: [[A-Za-z0-9_.]]. *)
Definition spec_class (c : ascii) : bool :=
  Js.in_range 65 90 c || Js.in_range 97 122 c || Js.in_range 48 57 c
  || (Js.code c =? 95) || (Js.code c =? 46).

(** The characters [appRe] accepts beyond the class of the specification:
    the five that lie between [Z] and [a] next to the underscore. *)
Definition between_cases (c : ascii) : bool :=
  Js.in_range 91 96 c && negb (Js.code c =? 95).

(** Every document of the [dpks] collection is filed under its own [dpk]
    value, which is how [storeDevicePublicKey] writes it. *)
Definition dpks_wf (fs : Firestore) : Prop :=
  map_Forall (fun k row => dpk row = k) (dpks_coll fs).

Definition empty_store : Firestore :=
  {| credentials_coll := ∅; dpks_coll := ∅ |}.

Definition with_faults (fl : list bool) (w : World) : World :=
  {| firestore := firestore w; faults := fl; trace := trace w |}.

(** Of calls issued one after the other, those the backend answered
    ([rejected] is [false]) or rejected ([true]), given what it did to
    each. *)
Fixpoint with_flag {A} (rejected : bool) (items : list A) (flags : list bool)
    : list A :=
  match items, flags with
  | x :: items', f :: flags' =>
      if Bool.eqb f rejected then x :: with_flag rejected items' flags'
      else with_flag rejected items' flags'
  | _, _ => []
  end.

(** The worlds the server can be in: it starts on an empty database, and
    moves on by the operations of the repository and the two response
    handlers, whatever the backend does to each call. *)
Inductive reachable : World -> Prop :=
  | reach_start fl :
      reachable {| firestore := empty_store; faults := fl; trace := [] |}
  | reach_faults fl w :
      reachable w -> reachable (with_faults fl w)
  | reach_getCredentials uid w :
      reachable w -> reachable (snd (Credential.getCredentials uid w))
  | reach_getCredential cid w :
      reachable w -> reachable (snd (Credential.getCredential cid w))
  | reach_storeCredential c w :
      reachable w -> reachable (snd (Credential.storeCredential c w))
  | reach_removeCredential cid w :
      reachable w -> reachable (snd (Credential.removeCredential cid w))
  | reach_getDevicePublicKeys cid w :
      reachable w -> reachable (snd (Credential.getDevicePublicKeys cid w))
  | reach_removeDevicePublicKey d w :
      reachable w -> reachable (snd (Credential.removeDevicePublicKey d w))
  | reach_storeDevicePublicKey row w :
      reachable w -> reachable (snd (Credential.storeDevicePublicKey row w))
  | reach_registerResponse V env req w :
      reachable w -> reachable (snd (WebAuthn.registerResponse V env req w))
  | reach_authResponse V env toBuffer req w :
      reachable w -> reachable (snd (WebAuthn.authResponse V env toBuffer req w)).

(** What a handler leaves of the ceremony state. *)
Definition released (s : WebAuthn.Session) : Prop :=
  WebAuthn.challenge s = None /\ WebAuthn.timeout s = None /\ WebAuthn.type s = None.

(** The events a computation adds to the trace. *)
Definition emitted (w w' : World) (evs : list event) : Prop :=
  trace w' = trace w ++ evs.

Definition is_auth_verify (e : event) : Prop :=
  match e with AuthenticationVerify _ => True | _ => False end.

Definition is_credential_write (e : event) : Prop :=
  match e with CredentialSet _ | CredentialDelete _ => True | _ => False end.

(** Every run of [m] relates the world before to the world after by [R]. *)
Definition steps {A} (R : World -> World -> Prop) (m : M A) : Prop :=
  forall w, R w (snd (m w)).

(** Whatever [m] throws lies in [E]. *)
Definition raises {A} (E : js_error -> Prop) (m : M A) : Prop :=
  forall w e, fst (m w) = inl e -> E e.

(** Relations between the world before and the world after. *)
Definition keeps_wf (w w' : World) : Prop :=
  dpks_wf (firestore w) -> dpks_wf (firestore w').

Definition same_credentials (w w' : World) : Prop :=
  credentials_coll (firestore w') = credentials_coll (firestore w).

Definition same_store (w w' : World) : Prop :=
  firestore w' = firestore w.

(** The trace only grows, and by events that satisfy [P]. *)
Definition grows (P : event -> Prop) (w w' : World) : Prop :=
  exists evs, emitted w w' evs /\ Forall P evs.

(** A handler that does not end on an uncaught exception has replied. *)
Definition replied (o : WebAuthn.outcome) : Prop :=
  match o with WebAuthn.Uncaught _ => False | _ => True end.


(** ** Concrete data for the examples *)

Module Sample.
Import WebAuthn.

Definition alice : Common.UserInfo :=
  {| Common.user_id := "alice"; Common.name := "alice@example.com";
     Common.displayName := "Alice"; Common.picture := "" |}.

Definition bob : Common.UserInfo :=
  {| Common.user_id := "bob"; Common.name := "bob@example.com";
     Common.displayName := "Bob"; Common.picture := "" |}.

Definition locals_of (u : option Common.UserInfo) : Locals :=
  {| user := u; hostname := Some "example.com";
     origin := Some "https://example.com" |}.

Definition no_android : Origin.Env :=
  {| Origin.ANDROID_PACKAGENAME := None; Origin.ANDROID_SHA256HASH := None |}.

Definition android : Origin.Env :=
  {| Origin.ANDROID_PACKAGENAME := Some "com.example.app";
     Origin.ANDROID_SHA256HASH := Some "AA:BB:CC" |}.

Definition toBuffer (s : string) : list byte := [].

(** The credential id [c1] and a two-byte public key. *)
Definition info (ext : option AuthenticatorExtensionResults) : RegistrationInfo :=
  {| info_credentialPublicKey := [x01; x02];
     info_credentialID := [x63; x31];
     info_counter := 0;
     userVerified := true;
     reg_authenticatorExtensionResults := ext |}.

(** A verifier that accepts every response, with no extension output;
    each authentication moves the counter to 1. *)
Definition accepting : Verifier :=
  {| verifyRegistrationResponse := fun _ =>
       inr {| reg_verified := true; registrationInfo := Some (info None) |};
     verifyAuthenticationResponse := fun _ =>
       inr {| verified := true;
              authenticationInfo :=
                {| newCounter := 1; authenticatorExtensionResults := None |} |} |}.


Definition challenged : Session :=
  {| challenge := Some "Q2hhbGxlbmdl"; timeout := Some 300000;
     type := Some "platform" |}.

Definition idle : Session :=
  {| challenge := None; timeout := None; type := None |}.

Definition registration (u : option Common.UserInfo) (s : Session)
    : Request RegistrationCredentialJSON :=
  {| locals := locals_of u; session := s;
     body := {| reg_id := "YzE"; reg_response := "{}";
                reg_transports := Some ["internal"];
                reg_clientExtensionResults := None |};
     header_User_Agent := Some "Mozilla/5.0"; useragent := None; now := 1000 |}.

Definition authentication (u : option Common.UserInfo) (s : Session)
    : Request AuthenticationCredentialJSON :=
  {| locals := locals_of u; session := s;
     body := {| id := "YzE"; auth_response := "{}" |};
     header_User_Agent := Some "Mozilla/5.0"; useragent := None; now := 2000 |}.

(** Alice's credential [YzE] as registration stores it. *)
Definition credential_of_alice : StoredCredential :=
  {| user_id := "alice"; credentialID := "YzE"; credentialPublicKey := "AQI";
     counter := 0; aaguid := None; registered := Some 1000;
     user_verifying := true; authenticatorAttachment := "platform";
     transports := Some ["internal"]; browser := None; os := None;
     platform := None; last_used := None; clientExtensionResults := None;
     dpks := None |}.

Definition fresh : World :=
  {| firestore := empty_store; faults := []; trace := [] |}.

Definition registered_world : World :=
  {| firestore := {| credentials_coll := {[ "YzE" := credential_of_alice ]};
                     dpks_coll := ∅ |};
     faults := []; trace := [] |}.

(** A database in which the device key [k1] is on file for [YzE]. *)
Definition with_device_key : World :=
  (Credential.storeDevicePublicKey
     {| dpk_credentialID := "YzE"; dpk := "k1" |} fresh).2.

End Sample.

(** ** Further notions and data *)

(** [a] was not registered before [b]. *)
Definition not_older (a b : StoredCredential) : Prop :=
  match registered a, registered b with
  | Some x, Some y => y <= x
  | _, _ => True
  end.

(** Every document of the [credentials] collection is filed under its
    own [credentialID], which is how [storeCredential] writes it. *)
Definition credentials_wf (fs : Firestore) : Prop :=
  map_Forall (fun k c => credentialID c = k) (credentials_coll fs).

Definition keeps_credentials_wf (w w' : World) : Prop :=
  credentials_wf (firestore w) -> credentials_wf (firestore w').

(** A list that runs from the newest registration to the oldest. *)
Fixpoint newest_first (l : list StoredCredential) : Prop :=
  match l with
  | [] => True
  | a :: l' => Forall (not_older a) l' /\ newest_first l'
  end.

(** The document [getCredentials] hands out for a stored credential. *)
Definition listed (fs : Firestore) (c : StoredCredential) : StoredCredential :=
  Credential.with_dpks c (Credential.query_dpks (credentialID c) fs).





(** The argument /registerResponse gives to the verifier. *)
Definition registration_verify_opts (req : WebAuthn.Request RegistrationCredentialJSON)
    (o : string) : VerifyRegistrationOpts :=
  {| reg_credential := WebAuthn.body req;
     reg_expectedChallenge :=
       default EmptyString (WebAuthn.challenge (WebAuthn.session req));
     reg_expectedOrigin := o;
     reg_expectedRPID :=
       default EmptyString (WebAuthn.hostname (WebAuthn.locals req)) |}.


(** What /registerResponse may send out for a session that holds the
    challenge [ch] and the enrollment type [ty], on a server with the
    relying-party id [rp]: verifications against [ch] and [rp], writes of
    credentials that record [ty], and writes of device keys. *)
Definition registration_event (ch rp ty : string) (e : event) : Prop :=
  match e with
  | RegistrationVerify o => reg_expectedChallenge o = ch /\ reg_expectedRPID o = rp
  | CredentialSet c => authenticatorAttachment c = ty
  | DpkSet _ => True
  | _ => False
  end.

(** The same request with another deadline in its session. *)
Definition with_deadline {B} (t : option Z) (req : WebAuthn.Request B)
    : WebAuthn.Request B :=
  {| WebAuthn.locals := WebAuthn.locals req;
     WebAuthn.session :=
       {| WebAuthn.challenge := WebAuthn.challenge (WebAuthn.session req);
          WebAuthn.timeout := t;
          WebAuthn.type := WebAuthn.type (WebAuthn.session req) |};
     WebAuthn.body := WebAuthn.body req;
     WebAuthn.header_User_Agent := WebAuthn.header_User_Agent req;
     WebAuthn.useragent := WebAuthn.useragent req;
     WebAuthn.now := WebAuthn.now req |}.

(** The conditions under which /registerResponse gets as far as its
    writes: the four guards pass, the origin resolves, and the verifier
    returns a verified result with its registration info. *)
Definition registration_accepted (V : Verifier) (env : Origin.Env)
    (req : WebAuthn.Request RegistrationCredentialJSON) : Prop :=
  exists u o v info,
    WebAuthn.user (WebAuthn.locals req) = Some u /\
    Js.truthy (WebAuthn.challenge (WebAuthn.session req)) = true /\
    Js.truthy (WebAuthn.hostname (WebAuthn.locals req)) = true /\
    Js.truthy (WebAuthn.origin (WebAuthn.locals req)) = true /\
    Origin.getOrigin env (default EmptyString (WebAuthn.origin (WebAuthn.locals req)))
      (WebAuthn.header_User_Agent req) = inr o /\
    verifyRegistrationResponse V (registration_verify_opts req o) = inr v /\
    reg_verified v = true /\
    registrationInfo v = Some info.

Module Scenario.
Import WebAuthn.

(** A credential of Bob, registered before Alice's. *)
Definition credential_of_bob : StoredCredential :=
  {| user_id := "bob"; credentialID := "Ym9i"; credentialPublicKey := "AQM";
     counter := 4; aaguid := None; registered := Some 500;
     user_verifying := false; authenticatorAttachment := "cross-platform";
     transports := None; browser := None; os := None;
     platform := None; last_used := None; clientExtensionResults := None;
     dpks := None |}.

(** A second credential of Alice, registered after the first. *)
Definition second_of_alice : StoredCredential :=
  {| user_id := "alice"; credentialID := "YzI"; credentialPublicKey := "AQQ";
     counter := 0; aaguid := None; registered := Some 3000;
     user_verifying := true; authenticatorAttachment := "undefined";
     transports := None; browser := None; os := None;
     platform := None; last_used := None; clientExtensionResults := None;
     dpks := None |}.

(** Three credentials of two users, with device keys for two of them. *)
Definition populated : World :=
  {| firestore :=
       {| credentials_coll :=
            {[ "YzE" := Sample.credential_of_alice;
               "YzI" := second_of_alice;
               "Ym9i" := credential_of_bob ]};
          dpks_coll :=
            {[ "k1" := {| dpk_credentialID := "YzE"; dpk := "k1" |};
               "k2" := {| dpk_credentialID := "YzE"; dpk := "k2" |};
               "k3" := {| dpk_credentialID := "Ym9i"; dpk := "k3" |} ]} |};
     faults := []; trace := [] |}.



End Scenario.

Module Issuing.
Import WebAuthn.

(** A generator that answers with the challenge [Tm9uY2U] whatever it is
    asked. *)
Definition fixed : Generator :=
  {| generateRegistrationOptions := fun _ _ =>
       inr {| issued_challenge := "Tm9uY2U"; issued_json := "{}" |};
     generateAuthenticationOptions := fun _ _ =>
       inr {| issued_challenge := "Tm9uY2U"; issued_json := "{}" |} |}.

Definition sha256 (data : list byte) : list byte := [x00].

(** A registration request that asks for an attachment the handler does
    not recognise, an unknown attestation and a custom timeout. *)
Definition odd_request : WebAuthnRegistrationObject :=
  {| cre_authenticatorSelection :=
       Some {| sel_authenticatorAttachment := Some "usb";
               sel_residentKey := Some "required";
               sel_userVerification := Some "always" |};
     cre_attestation := Some "full";
     cre_user := None;
     cre_extensions := None;
     cre_customTimeout := Some 1000 |}.

Definition registration_request (b : option WebAuthnRegistrationObject)
    (u : option Common.UserInfo) (s : Session)
    : Request (option WebAuthnRegistrationObject) :=
  {| locals := Sample.locals_of u; session := s; body := b;
     header_User_Agent := Some "Mozilla/5.0"; useragent := None; now := 900 |}.

Definition authentication_request (h : option string) (s : Session)
    : Request (option WebAuthnAuthenticationObject) :=
  {| locals := {| user := Some Sample.alice; hostname := h;
                  origin := Some "https://example.com" |};
     session := s;
     body := Some {| ask_userVerification := None; ask_customTimeout := None |};
     header_User_Agent := Some "Mozilla/5.0"; useragent := None; now := 1900 |}.

End Issuing.

(** The characters of the URL-safe base64 alphabet. *)
Definition url_safe (c : ascii) : bool :=
  Js.in_range 65 90 c || Js.in_range 97 122 c || Js.in_range 48 57 c
  || (Js.code c =? 45) || (Js.code c =? 95).

Fixpoint string_forall (P : ascii -> bool) (s : string) : bool :=
  match s with
  | EmptyString => true
  | String c rest => P c && string_forall P rest
  end.

(** What [fromBase64] makes of a character other than the padding. *)
Definition url_of (c : ascii) : ascii :=
  if Ascii.eqb c "+"%char then "-"%char
  else if Ascii.eqb c "/"%char then "_"%char
  else c.

(** The four sextets of a group of three octets. *)
Definition sextet1 (a : Z) : Z := Z.shiftr a 2.
Definition sextet2 (a b : Z) : Z := Z.lor (Z.shiftl (Z.land a 3) 4) (Z.shiftr b 4).
Definition sextet3 (b c : Z) : Z := Z.lor (Z.shiftl (Z.land b 15) 2) (Z.shiftr c 6).
Definition sextet4 (c : Z) : Z := Z.land c 63.

(** A sextet whose character survives [fromBase64] as a URL-safe one. *)
Definition good_sextet (n : Z) : bool :=
  negb (Ascii.eqb (Base64url.sextet n) "="%char)
  && url_safe (url_of (Base64url.sextet n)).

(** The integers from 0 up to [n], excluded. *)
Definition below (n : nat) : list Z := Z.of_nat <$> seq 0 n.

(** The place of a character in the URL-safe alphabet. *)
Definition index_of (c : ascii) : Z :=
  if Js.in_range 65 90 c then Js.code c - 65
  else if Js.in_range 97 122 c then Js.code c - 71
  else if Js.in_range 48 57 c then Js.code c + 4
  else if Js.code c =? 45 then 62
  else 63.

(** The place, in the URL-safe alphabet, of the character that
    [Base64url.encode] writes for a sextet. *)
Definition sextet_index (n : Z) : Z := index_of (url_of (Base64url.sextet n)).

(** The octets a text of the URL-safe alphabet stands for, read back four
    characters at a time. The handlers take [base64url.toBuffer] as given;
    this reading serves only to show that [Base64url.encode] loses
    nothing. *)
Fixpoint octets_of (s : string) : list Z :=
  match s with
  | String c1 (String c2 rest2) =>
      let i1 := index_of c1 in
      let i2 := index_of c2 in
      let a := Z.lor (Z.shiftl i1 2) (Z.shiftr i2 4) in
      match rest2 with
      | String c3 rest3 =>
          let i3 := index_of c3 in
          let b := Z.lor (Z.shiftl (Z.land i2 15) 4) (Z.shiftr i3 2) in
          match rest3 with
          | String c4 rest =>
              let c := Z.lor (Z.shiftl (Z.land i3 3) 6) (index_of c4) in
              a :: b :: c :: octets_of rest
          | EmptyString => [a; b]
          end
      | EmptyString => [a]
      end
  | _ => []
  end.

(** The two lists [getOrigin] reads from the environment. *)
Definition package_names (env : Origin.Env) : list string :=
  Js.trim <$> Js.split "," (default EmptyString (Origin.ANDROID_PACKAGENAME env)).

Definition hashes (env : Origin.Env) : list string :=
  Js.trim <$> Js.split "," (default EmptyString (Origin.ANDROID_SHA256HASH env)).

(** A certificate fingerprint as [keytool] prints it: the bytes as two
    upper-case hexadecimal digits each, separated by colons. *)
Definition hex_char (n : Z) : ascii :=
  default "0"%char (String.get (Z.to_nat n) "0123456789ABCDEF").

Definition hex2 (b : byte) : string :=
  String (hex_char (Base64url.octet b / 16))
    (String (hex_char (Base64url.octet b mod 16)) EmptyString).

Fixpoint fingerprint (bs : list byte) : string :=
  match bs with
  | [] => EmptyString
  | [a] => hex2 a
  | a :: rest => hex2 a +:+ String ":"%char (fingerprint rest)
  end.

(** * Properties *)

(** ** Origin resolver *)

Section OriginFacts.
Import Origin.

Example getOrigin_sample :
  getOrigin
    {| ANDROID_PACKAGENAME := Some "com.example.app, org.other";
       ANDROID_SHA256HASH := Some "AA:BB:CC:FF, 01:02" |}
    "https://example.com" (Some "com.example.app/1.0 (Linux)")
  = inr "android:apk-key-hash:qrvM_w".
Proof. vm_compute. reflexivity. Qed.


Lemma appRe_class_split c : appRe_class c = spec_class c || between_cases c.
Proof. destruct c as [[] [] [] [] [] [] [] []]; reflexivity. Qed.

Lemma getOrigin_no_user_agent env o : getOrigin env o None = inr o.
Proof. reflexivity. Qed.

Lemma getOrigin_empty_user_agent env o : getOrigin env o (Some EmptyString) = inr o.
Proof. reflexivity. Qed.

Lemma getOrigin_no_token env o ua :
  match_prefix appRe_class ua = None -> getOrigin env o (Some ua) = inr o.
Proof.
  intros Hm. unfold getOrigin.
  destruct (negb (Js.truthy (Some ua))); [reflexivity|].
  simpl. rewrite Hm. reflexivity.
Qed.

Lemma scan_unrecognized tok names hashes i o :
  tok ∉ names -> scan tok names hashes i o = inr o.
Proof.
  revert i. induction names as [|n names IH]; intros i Hn; simpl; [reflexivity|].
  destruct (String.eqb_spec tok n) as [->|Hne].
  - exfalso. apply Hn. left.
  - apply IH. intros Hin. apply Hn. by right.
Qed.

Lemma scan_recognized tok names hashes i j h o :
  names !! j = Some tok ->
  (forall j', (j' < j)%nat -> names !! j' ≠ Some tok) ->
  hashes !! (i + j)%nat = Some h ->
  scan tok names hashes i o =
    inr ("android:apk-key-hash:" +:+
           Base64url.encode_array (Js.parseInt16 <$> Js.split ":" h)).
Proof.
  revert i j. induction names as [|n names IH]; intros i j Hj Hfirst Hh.
  - discriminate.
  - simpl. destruct (String.eqb_spec tok n) as [->|Hne].
    + destruct j as [|j].
      * rewrite Nat.add_0_r in Hh. rewrite Hh. reflexivity.
      * exfalso. apply (Hfirst 0%nat); [lia | reflexivity].
    + destruct j as [|j]; [simpl in Hj; congruence|].
      apply (IH (S i) j).
      * exact Hj.
      * intros j' Hlt. apply (Hfirst (S j')). lia.
      * replace (S i + j)%nat with (i + S j)%nat by lia. exact Hh.
Qed.

Lemma take_class_agree ua :
  (forall c, c ∈ String.list_ascii_of_string (take_class appRe_class ua) ->
             between_cases c = false) ->
  take_class appRe_class ua = take_class spec_class ua.
Proof.
  induction ua as [|c ua IH]; intros Hc; [reflexivity|].
  simpl in *. rewrite appRe_class_split in *.
  destruct (spec_class c) eqn:Hs; simpl in *.
  - f_equal. apply IH. intros c' Hin. apply Hc. by right.
  - destruct (between_cases c) eqn:Hb; [|reflexivity].
    simpl in Hc. specialize (Hc c). rewrite Hb in Hc.
    discriminate Hc. left.
Qed.

Lemma getOrigin_unrecognized env o ua tok :
  match_prefix appRe_class ua = Some tok ->
  tok ∉ Js.trim <$> Js.split "," (default EmptyString (ANDROID_PACKAGENAME env)) ->
  getOrigin env o (Some ua) = inr o.
Proof.
  intros Hm Hn. unfold getOrigin.
  destruct (negb (Js.truthy (Some ua))); [reflexivity|].
  simpl. rewrite Hm. destruct (_ && _); [|reflexivity].
  by apply scan_unrecognized.
Qed.

Lemma getOrigin_recognized env o ua tok pkgs hs j h :
  ANDROID_PACKAGENAME env = Some pkgs -> Js.truthy (Some pkgs) = true ->
  ANDROID_SHA256HASH env = Some hs -> Js.truthy (Some hs) = true ->
  match_prefix appRe_class ua = Some tok ->
  (Js.trim <$> Js.split "," pkgs) !! j = Some tok ->
  (forall j', (j' < j)%nat -> (Js.trim <$> Js.split "," pkgs) !! j' ≠ Some tok) ->
  (Js.trim <$> Js.split "," hs) !! j = Some h ->
  getOrigin env o (Some ua) =
    inr ("android:apk-key-hash:" +:+
           Base64url.encode_array (Js.parseInt16 <$> Js.split ":" h)).
Proof.
  intros Hp Htp Hh Hth Hm Hj Hfirst Hhash. unfold getOrigin.
  assert (Js.truthy (Some ua) = true) as ->.
  { destruct ua; [discriminate Hm | reflexivity]. }
  simpl. rewrite Hm, Hp, Hh, Htp, Hth. simpl.
  by apply (scan_recognized tok _ _ 0%nat j h).
Qed.

End OriginFacts.

(** ** Reasoning about computations in [M] *)

Lemma bind_run {A B} (m : M A) (k : A -> M B) w :
  bind m k w = match m w with
               | (inr a, w') => k a w'
               | (inl e, w') => (inl e, w')
               end.
Proof. reflexivity. Qed.

Section Steps.
Context (R : World -> World -> Prop) `{!Reflexive R} `{!Transitive R}.

Lemma steps_ret {A} (a : A) : steps R (ret a).
Proof. intros w. simpl. reflexivity. Qed.

Lemma steps_throw {A} e : steps R (@throw A e).
Proof. intros w. simpl. reflexivity. Qed.

Lemma steps_lift {A} (r : js_error + A) : steps R (lift r).
Proof. intros w. simpl. reflexivity. Qed.

Lemma steps_bind {A B} (m : M A) (k : A -> M B) :
  steps R m -> (forall a, steps R (k a)) -> steps R (bind m k).
Proof.
  intros Hm Hk w. unfold bind. specialize (Hm w).
  destruct (m w) as [[e|a] w1]; simpl in *; [exact Hm|].
  etransitivity; [exact Hm | apply Hk].
Qed.

Lemma steps_detached {A} (m : M A) : steps R m -> steps R (detached m).
Proof. intros Hm w. apply Hm. Qed.

Lemma steps_for_each {A B} (f : A -> M B) xs :
  (forall x, steps R (f x)) -> steps R (for_each f xs).
Proof.
  intros Hf. induction xs as [|x xs IH]; simpl.
  - apply steps_ret.
  - apply steps_bind; [apply Hf|]. intros y.
    apply steps_bind; [exact IH|]. intros ys. apply steps_ret.
Qed.

Lemma steps_call {A} e (f : Firestore -> A * Firestore) :
  (forall w fl, R w {| firestore := firestore w; faults := fl;
                       trace := trace w ++ [e] |}) ->
  (forall w fl, R w {| firestore := snd (f (firestore w)); faults := fl;
                       trace := trace w ++ [e] |}) ->
  steps R (call e f).
Proof.
  intros Hrej Hok w. unfold call.
  destruct (faults w) as [|[] fl]; simpl.
  - specialize (Hok w []). destruct (f (firestore w)); exact Hok.
  - apply Hrej.
  - specialize (Hok w fl). destruct (f (firestore w)); exact Hok.
Qed.

End Steps.

Section Raises.
Context (E : js_error -> Prop).






Lemma raises_detached {A} (m : M A) : raises E (detached m).
Proof. intros w e H. discriminate. Qed.



End Raises.

(** ** Credential repository *)

Section RepositoryFacts.
Import Credential.

Lemma call_ok {A} e (f : Firestore -> A * Firestore) fs tr :
  call e f {| firestore := fs; faults := []; trace := tr |} =
  (inr (f fs).1, {| firestore := (f fs).2; faults := []; trace := tr ++ [e] |}).
Proof. unfold call. simpl. destruct (f fs). reflexivity. Qed.

Lemma call_run {A} e (f : Firestore -> A * Firestore) fs fl tr :
  call e f {| firestore := fs; faults := fl; trace := tr |} =
  match fl with
  | true :: rest =>
      (inl StorageError, {| firestore := fs; faults := rest; trace := tr ++ [e] |})
  | _ =>
      (inr (f fs).1, {| firestore := (f fs).2; faults := tail fl; trace := tr ++ [e] |})
  end.
Proof. unfold call. simpl. destruct fl as [|[] rest]; simpl; by destruct (f fs). Qed.

Lemma elem_of_query_dpks d cid fs :
  d ∈ query_dpks cid fs <->
  exists k row, dpks_coll fs !! k = Some row /\ dpk_credentialID row = cid /\ dpk row = d.
Proof.
  unfold query_dpks. rewrite list_elem_of_fmap. split.
  - intros (row & -> & Hin). apply list_elem_of_filter in Hin as [Hc Hin].
    apply list_elem_of_fmap in Hin as ([k row'] & -> & Hin).
    apply elem_of_map_to_list in Hin. eauto.
  - intros (k & row & Hl & Hc & Hd). exists row. split; [done|].
    apply list_elem_of_filter. split; [done|].
    apply list_elem_of_fmap. exists (k, row). split; [done|].
    by apply elem_of_map_to_list.
Qed.

Lemma elem_of_query_dpks_wf d cid fs :
  dpks_wf fs ->
  d ∈ query_dpks cid fs <->
  exists row, dpks_coll fs !! d = Some row /\ dpk_credentialID row = cid.
Proof.
  intros Hwf. rewrite elem_of_query_dpks. split.
  - intros (k & row & Hl & Hc & Hd). exists row. split; [|done].
    pose proof (Hwf k row Hl) as Hk. simpl in Hk. congruence.
  - intros (row & Hl & Hc). exists d, row. split; [done|]. split; [done|].
    exact (Hwf d row Hl).
Qed.

Lemma query_dpks_NoDup cid fs : dpks_wf fs -> NoDup (query_dpks cid fs).
Proof.
  intros Hwf. unfold query_dpks.
  apply (sublist_NoDup _ (dpk <$> (snd <$> map_to_list (dpks_coll fs)))).
  - assert (Heq : dpk <$> (snd <$> map_to_list (dpks_coll fs))
                  = fst <$> map_to_list (dpks_coll fs)).
    { rewrite <- list_fmap_compose. apply list_fmap_ext.
      intros i [k row] Hl. simpl.
      apply list_elem_of_lookup_2, elem_of_map_to_list in Hl.
      exact (Hwf k row Hl). }
    rewrite Heq. apply NoDup_fst_map_to_list.
  - apply fmap_sublist, sublist_filter.
Qed.

Lemma elem_of_query_credentials c uid fs :
  c ∈ query_credentials uid fs <->
  (exists k, credentials_coll fs !! k = Some c) /\ user_id c = uid /\
  is_Some (registered c).
Proof.
  unfold query_credentials, order_by_registered_desc.
  assert (Hins : forall x y l, x ∈ insert_desc y l <-> x = y \/ x ∈ l).
  { intros x y l. induction l as [|z l IH]; simpl.
    - rewrite list_elem_of_singleton, elem_of_nil. tauto.
    - destruct (newer z y); rewrite !elem_of_cons; [rewrite IH|]; tauto. }
  assert (Hsort : forall x l, x ∈ foldr insert_desc [] l <-> x ∈ l).
  { intros x l. induction l as [|z l IH]; simpl; [done|].
    rewrite Hins, IH, elem_of_cons. tauto. }
  rewrite Hsort, list_elem_of_filter, list_elem_of_fmap. split.
  - intros [[Hu Hr] ([k c'] & -> & Hin)].
    apply elem_of_map_to_list in Hin. eauto.
  - intros [[k Hl] [Hu Hr]]. split; [done|].
    exists (k, c). split; [done|]. by apply elem_of_map_to_list.
Qed.

Lemma forEach_remove_ok items fs tr :
  forEach_remove items {| firestore := fs; faults := []; trace := tr |} =
  (inr (),
   {| firestore :=
        {| credentials_coll := credentials_coll fs;
           dpks_coll := foldl (fun m d => delete d m) (dpks_coll fs) items |};
      faults := [];
      trace := tr ++ (DpkDelete <$> items) |}).
Proof.
  revert fs tr. induction items as [|d items IH]; intros fs tr; simpl.
  - rewrite app_nil_r. by destruct fs.
  - unfold bind, detached, removeDevicePublicKey. rewrite call_ok. simpl.
    rewrite IH. simpl. by rewrite <- app_assoc.
Qed.

Lemma lookup_foldl_delete {V} (m : gmap string V) items k :
  foldl (fun m d => delete d m) m items !! k =
  if decide (k ∈ items) then None else m !! k.
Proof.
  revert m. induction items as [|d items IH]; intros m; simpl.
  - destruct (decide (k ∈ [])) as [H|]; [by apply elem_of_nil in H | done].
  - rewrite IH.
    destruct (decide (k ∈ items)) as [Hin|Hnin];
      destruct (decide (k ∈ d :: items)) as [Hin'|Hnin']; try done.
    + exfalso. apply Hnin'. by right.
    + apply elem_of_cons in Hin' as [->|?]; [apply lookup_delete_eq | done].
    + rewrite lookup_delete_ne; [done|]. intros ->. apply Hnin'. left.
Qed.

Lemma for_each_dpks_ok l fs tr :
  for_each (fun cred => d <- getDevicePublicKeys (credentialID cred) ;;
                        ret (with_dpks cred d)) l
    {| firestore := fs; faults := []; trace := tr |} =
  (inr ((fun c => with_dpks c (query_dpks (credentialID c) fs)) <$> l),
   {| firestore := fs; faults := [];
      trace := tr ++ ((fun c => DpksQuery (credentialID c)) <$> l) |}).
Proof.
  revert tr. induction l as [|c l IH]; intros tr; simpl.
  - unfold ret. by rewrite app_nil_r.
  - unfold bind at 1. unfold bind at 1. unfold getDevicePublicKeys.
    rewrite call_ok. simpl. unfold bind at 1. rewrite IH. simpl.
    by rewrite <- app_assoc.
Qed.

Lemma getCredentials_ok uid fs tr :
  getCredentials uid {| firestore := fs; faults := []; trace := tr |} =
  (inr ((fun c => with_dpks c (query_dpks (credentialID c) fs))
          <$> query_credentials uid fs),
   {| firestore := fs; faults := [];
      trace := tr ++ CredentialsQuery uid ::
                 ((fun c => DpksQuery (credentialID c)) <$> query_credentials uid fs) |}).
Proof.
  unfold getCredentials. unfold bind at 1. rewrite call_ok. simpl.
  rewrite for_each_dpks_ok. by rewrite <- app_assoc.
Qed.


Lemma find_none_not_elem cid (l : list StoredCredential) :
  cid ∉ credentialID <$> l ->
  List.find (fun c => String.eqb (credentialID c) cid) l = None.
Proof.
  induction l as [|c l IH]; simpl; [done|]. intros Hn.
  destruct (String.eqb_spec (credentialID c) cid) as [<-|Hne].
  - exfalso. apply Hn. left.
  - apply IH. intros Hin. apply Hn. by right.
Qed.

End RepositoryFacts.

(** ** Relations between the world before and after *)

#[local] Instance keeps_wf_refl : Reflexive keeps_wf.
Proof. intros w H. exact H. Qed.
#[local] Instance keeps_wf_trans : Transitive keeps_wf.
Proof. intros a b c H1 H2 H. apply H2, H1, H. Qed.
#[local] Instance same_credentials_refl : Reflexive same_credentials.
Proof. intros w. reflexivity. Qed.
#[local] Instance same_credentials_trans : Transitive same_credentials.
Proof. intros a b c H1 H2. unfold same_credentials in *. congruence. Qed.
#[local] Instance same_store_refl : Reflexive same_store.
Proof. intros w. reflexivity. Qed.
#[local] Instance same_store_trans : Transitive same_store.
Proof. intros a b c H1 H2. unfold same_store in *. congruence. Qed.
#[local] Instance grows_refl P : Reflexive (grows P).
Proof. intros w. exists []. split; [unfold emitted; by rewrite app_nil_r | constructor]. Qed.
#[local] Instance grows_trans P : Transitive (grows P).
Proof.
  intros a b c (e1 & H1 & F1) (e2 & H2 & F2). exists (e1 ++ e2). split.
  - unfold emitted in *. rewrite H2, H1. by rewrite app_assoc.
  - by apply Forall_app.
Qed.



Lemma same_credentials_call {A} e (f : Firestore -> A * Firestore) :
  (forall fs, credentials_coll (f fs).2 = credentials_coll fs) ->
  steps same_credentials (call e f).
Proof. intros Hf. apply steps_call; intros w fl; unfold same_credentials; simpl; auto. Qed.

Lemma same_credentials_emit e : steps same_credentials (emit e).
Proof. intros w. reflexivity. Qed.

Lemma same_store_call {A} e (f : Firestore -> A * Firestore) :
  (forall fs, (f fs).2 = fs) -> steps same_store (call e f).
Proof. intros Hf. apply steps_call; intros w fl; unfold same_store; simpl; auto. Qed.

Lemma grows_call {A} (P : event -> Prop) e (f : Firestore -> A * Firestore) :
  P e -> steps (grows P) (call e f).
Proof.
  intros He. apply steps_call; intros w fl; exists [e]; split;
    try reflexivity; by repeat constructor.
Qed.

Lemma grows_emit (P : event -> Prop) e : P e -> steps (grows P) (emit e).
Proof. intros He w. exists [e]. split; [reflexivity | by repeat constructor]. Qed.

(** Breaks a computation down to its calls and emissions. *)
Ltac steps_down :=
  repeat match goal with
    | |- Reflexive _ => exact _
    | |- Transitive _ => exact _
    | |- forall _, steps _ _ => intros ?
    | |- steps _ (ret _) => apply steps_ret
    | |- steps _ (throw _) => apply steps_throw
    | |- steps _ (lift _) => apply steps_lift
    | |- steps _ (detached _) => apply steps_detached
    | |- steps _ (for_each _ _) => apply steps_for_each
    | |- steps _ (bind _ _) => apply steps_bind
    | |- steps _ (match ?x with _ => _ end) => destruct x
    end.

Section WorldFacts.
Import Credential WebAuthn.

Lemma snd_registerResponse V env req w :
  (registerResponse V env req w).2 = (registerResponse_try V env req w).2.
Proof. unfold registerResponse. by destruct (registerResponse_try V env req w) as [[?|?] ?]. Qed.

Lemma snd_authResponse V env tb req w :
  (authResponse V env tb req w).2 = w \/
  exists u c r o, (authResponse V env tb req w).2 = (authResponse_try V tb req u c r o w).2 /\
                  c = Js.or_default (challenge (session req)) EmptyString.
Proof.
  unfold authResponse. destruct (user (locals req)) as [u|]; [|by left].
  destruct (negb _); [by left|]. destruct (negb _); [by left|].
  destruct (Origin.getOrigin _ _ _) as [e|o]; [by left|]. right.
  exists u, (Js.or_default (challenge (session req)) EmptyString),
    (default EmptyString (hostname (locals req))), o.
  split; [|reflexivity].
  by destruct (authResponse_try _ _ _ _ _ _ _ _) as [[?|?] ?].
Qed.









End WorldFacts.

Section AuthenticationFacts.
Import Credential WebAuthn.

Lemma for_each_inr {A B} (Q : A -> B -> Prop) (f : A -> M B) xs :
  (forall x w y w', f x w = (inr y, w') -> Q x y) ->
  forall w ys w', for_each f xs w = (inr ys, w') -> Forall2 Q xs ys.
Proof.
  intros Hf. induction xs as [|x xs IH]; intros w ys w' H; simpl in H.
  - unfold ret in H. simplify_eq. constructor.
  - unfold bind in H. destruct (f x w) as [[e|y] w1] eqn:Ex; [discriminate H|].
    destruct (for_each f xs w1) as [[e|ys'] w2] eqn:Exs; [discriminate H|].
    unfold ret in H. simplify_eq. constructor; eauto.
Qed.

(** What [getCredentials] returns, when it returns, are the documents
    of the query, up to their [dpks] field. *)
Lemma getCredentials_inr uid w l w' :
  getCredentials uid w = (inr l, w') ->
  credentialID <$> l = credentialID <$> query_credentials uid (firestore w).
Proof.
  unfold getCredentials, bind.
  destruct (call (CredentialsQuery uid) _ w) as [[e|res] w1] eqn:Ec; [discriminate|].
  assert (res = query_credentials uid (firestore w)) as ->.
  { unfold call in Ec. destruct (faults w) as [|[] ?]; simpl in Ec; by simplify_eq. }
  clear Ec. intros H.
  apply (for_each_inr (fun x y => credentialID y = credentialID x)) in H.
  - induction H as [|x y xs ys Hxy _ IH]; [done|].
    rewrite !fmap_cons. congruence.
  - intros x w0 y w0'. unfold bind, getDevicePublicKeys, call, ret.
    destruct (faults w0) as [|[] ?]; simpl; intros; by simplify_eq.
Qed.

Lemma getCredentials_same_store uid : steps same_store (getCredentials uid).
Proof.
  unfold getCredentials, getDevicePublicKeys.
  steps_down; apply same_store_call; reflexivity.
Qed.

Lemma getCredentials_grows (P : event -> Prop) uid :
  (forall u, P (CredentialsQuery u)) -> (forall c, P (DpksQuery c)) ->
  steps (grows P) (getCredentials uid).
Proof.
  intros H1 H2. unfold getCredentials, getDevicePublicKeys.
  steps_down; apply grows_call; auto.
Qed.



(** Every verification /authResponse asks for is asked with the
    expected challenge it computed before the [try]. *)
Lemma authResponse_try_challenge V tb req u c r o :
  steps (grows (fun e => forall opts, e = AuthenticationVerify opts ->
                                      expectedChallenge opts = c))
    (authResponse_try V tb req u c r o).
Proof.
  unfold authResponse_try, verify_authentication, auth_verified.
  steps_down;
    try (apply getCredentials_grows; intros; discriminate);
    try (apply grows_call; intros; discriminate).
  apply grows_emit. intros opts H. by simplify_eq.
Qed.


End AuthenticationFacts.
Section ResponseFacts.
Import Credential WebAuthn.

(** /authResponse never writes to the [credentials] collection. *)
Lemma authResponse_try_same_credentials V tb req u c r o :
  steps same_credentials (authResponse_try V tb req u c r o).
Proof.
  unfold authResponse_try, verify_authentication, auth_verified, getCredentials.
  steps_down;
    solve [ apply same_credentials_emit
          | apply same_credentials_call; reflexivity ].
Qed.

Lemma authResponse_same_credentials V env tb req w :
  credentials_coll (firestore (authResponse V env tb req w).2)
  = credentials_coll (firestore w).
Proof.
  destruct (snd_authResponse V env tb req w) as [->|(u & c & r & o & -> & _)];
    [reflexivity|].
  apply authResponse_try_same_credentials.
Qed.

(** Both branches of /registerResponse end on the three deletions. *)
Lemma registerResponse_released V env req w :
  released (registerResponse V env req w).1.2.
Proof.
  unfold registerResponse.
  destruct (registerResponse_try V env req w) as [[e|c] w']; repeat split.
Qed.

(** So do both branches of the [try] of /authResponse, for the
    challenge and the timeout. *)
Lemma authResponse_replied_released V env tb req w :
  replied (authResponse V env tb req w).1.1 ->
  challenge (authResponse V env tb req w).1.2 = None /\
  timeout (authResponse V env tb req w).1.2 = None.
Proof.
  unfold authResponse.
  destruct (user (locals req)) as [u|]; [|intros []].
  destruct (negb _); [intros []|]. destruct (negb _); [intros []|].
  destruct (Origin.getOrigin _ _ _) as [e|o]; [intros []|].
  destruct (authResponse_try _ _ _ _ _ _ _ _) as [[e|c] w'];
    intros _; split; reflexivity.
Qed.

End ResponseFacts.

Section CascadeFacts.
Import Credential.

(** With the backend answering, [removeCredential] is the deletion of
    the reference on the store the deletions of the keys have left. *)
Lemma removeCredential_keys_ok cid fs tr :
  removeCredential cid {| firestore := fs; faults := []; trace := tr |} =
  (ref <- lift (Doc.doc cid) ;; delete_reference ref)
    {| firestore :=
         {| credentials_coll := credentials_coll fs;
            dpks_coll := foldl (fun m d => delete d m) (dpks_coll fs)
                           (query_dpks cid fs) |};
       faults := [];
       trace := tr ++ DpksQuery cid :: (DpkDelete <$> query_dpks cid fs) |}.
Proof.
  unfold removeCredential, getDevicePublicKeys.
  rewrite bind_run, call_ok. simpl.
  rewrite bind_run, forEach_remove_ok. simpl.
  by rewrite <- app_assoc.
Qed.

(** What [removeCredential] returns and leaves in the store, by what
    [doc] makes of the id, with the backend answering. *)
Lemma removeCredential_store_ok cid fs tr :
  let r := removeCredential cid {| firestore := fs; faults := []; trace := tr |} in
  dpks_coll (firestore r.2) =
    foldl (fun m d => delete d m) (dpks_coll fs) (query_dpks cid fs) /\
  match Doc.doc cid with
  | inl e =>
      r.1 = inl e /\ credentials_coll (firestore r.2) = credentials_coll fs
  | inr (Doc.Document id) =>
      r.1 = inr () /\
      credentials_coll (firestore r.2) = delete id (credentials_coll fs)
  | inr (Doc.SubDocument _) =>
      r.1 = inr () /\ credentials_coll (firestore r.2) = credentials_coll fs
  end.
Proof.
  cbv zeta. rewrite removeCredential_keys_ok, bind_run. unfold lift.
  destruct (Doc.doc cid) as [e|[id|path]]; [by split|..];
    unfold delete_reference; rewrite call_ok; by split.
Qed.

Lemma forEach_remove_run items : forall fs fl rest tr,
  length fl = length items ->
  forEach_remove items {| firestore := fs; faults := fl ++ rest; trace := tr |} =
  (inr (),
   {| firestore :=
        {| credentials_coll := credentials_coll fs;
           dpks_coll := foldl (fun m d => delete d m) (dpks_coll fs)
                          (with_flag false items fl) |};
      faults := rest;
      trace := tr ++ (DpkDelete <$> items) |}).
Proof.
  induction items as [|d items IH]; intros fs fl rest tr Hlen.
  - destruct fl; [|discriminate Hlen]. simpl. rewrite app_nil_r. by destruct fs.
  - destruct fl as [|f fl]; [discriminate Hlen|]. injection Hlen as Hlen.
    cbn [forEach_remove]. rewrite bind_run. unfold detached, removeDevicePublicKey.
    rewrite call_run. destruct f; cbn [snd fst app tail with_flag Bool.eqb].
    + rewrite (IH _ fl rest _ Hlen). cbn [credentials_coll dpks_coll].
      by rewrite <- app_assoc.
    + rewrite (IH _ fl rest _ Hlen). cbn [credentials_coll dpks_coll foldl].
      by rewrite <- app_assoc.
Qed.

(** The outcome of [removeCredential] for any answers of the backend to
    the deletions of the keys, when it answers the query and the
    deletion of the credential. *)
Lemma removeCredential_run cid id fs fl rest tr :
  Doc.doc cid = inr (Doc.Document id) ->
  length fl = length (query_dpks cid fs) ->
  head rest <> Some true ->
  removeCredential cid
    {| firestore := fs; faults := false :: fl ++ rest; trace := tr |} =
  (inr (),
   {| firestore :=
        {| credentials_coll := delete id (credentials_coll fs);
           dpks_coll := foldl (fun m d => delete d m) (dpks_coll fs)
                          (with_flag false (query_dpks cid fs) fl) |};
      faults := tail rest;
      trace := tr ++ DpksQuery cid :: (DpkDelete <$> query_dpks cid fs)
                  ++ [CredentialDelete id] |}).
Proof.
  intros Hdoc Hlen Hrest. unfold removeCredential, getDevicePublicKeys.
  rewrite bind_run, call_run. cbn [fst snd tail].
  rewrite bind_run, (forEach_remove_run _ _ fl rest _ Hlen).
  rewrite bind_run. unfold lift. rewrite Hdoc. unfold delete_reference.
  rewrite call_run. destruct rest as [|[] rest]; [|by destruct Hrest|];
    cbn [fst snd tail credentials_coll dpks_coll];
    (f_equal; f_equal; rewrite <- !app_assoc; reflexivity).
Qed.

Lemma elem_of_with_flag {A} b (items : list A) fl d :
  d ∈ with_flag b items fl -> d ∈ items.
Proof.
  revert fl. induction items as [|x items IH]; intros [|f fl] H;
    try (by apply elem_of_nil in H). cbn [with_flag] in H.
  destruct (Bool.eqb f b); [|right; by apply (IH fl)].
  apply elem_of_cons in H as [->|H]; [left | right; by apply (IH fl)].
Qed.

(** The keys that stay are those whose deletion was rejected. *)
Lemma remaining_keys {A} (items : list A) (fl : list bool) d :
  NoDup items -> length fl = length items ->
  (d ∈ items /\ d ∉ with_flag false items fl) <->
  (exists i, items !! i = Some d /\ fl !! i = Some true).
Proof.
  revert fl. induction items as [|x items IH]; intros fl Hnd Hlen.
  - split; [intros [H _]; by apply elem_of_nil in H | intros (i & H & _); done].
  - destruct fl as [|f fl]; [discriminate Hlen|]. injection Hlen as Hlen.
    apply NoDup_cons in Hnd as [Hx Hnd]. specialize (IH fl Hnd Hlen).
    cbn [with_flag]. split.
    + intros [Hin Hout]. apply elem_of_cons in Hin as [->|Hin].
      * destruct f; [by exists 0%nat|]. exfalso. apply Hout. simpl. left.
      * destruct IH as [IH _]. destruct IH as (i & Hi & Hf).
        { split; [exact Hin|]. intros H. apply Hout.
          destruct f; simpl; [exact H | by right]. }
        by exists (S i).
    + intros ([|i] & Hi & Hf); simpl in Hi, Hf.
      * injection Hi as ->. injection Hf as ->. split; [left|].
        simpl. intros H. by apply Hx, (elem_of_with_flag false items fl).
      * destruct IH as [_ IH]. destruct IH as [Hin Hout]; [by exists i|].
        split; [by right|]. intros H. destruct f; simpl in H; [by apply Hout|].
        apply elem_of_cons in H as [->|H]; [by apply Hx | by apply Hout].
Qed.

End CascadeFacts.

Section ForeignCredential.
Import Credential WebAuthn.

Lemma authResponse_try_foreign V tb (req : Request AuthenticationCredentialJSON)
    u c r o w :
  id (body req) ∉ credentialID <$> query_credentials (Common.user_id u) (firestore w) ->
  let t := authResponse_try V tb req u c r o w in
  (exists e, t.1 = inl e) /\
  grows (fun e => ~ is_auth_verify e) w t.2 /\
  firestore t.2 = firestore w /\
  (faults w = [] -> t.1 = inl CredentialNotFound).
Proof.
  intros Hnot t. subst t. unfold authResponse_try. rewrite bind_run.
  pose proof (getCredentials_same_store (Common.user_id u) w) as Hstore.
  pose proof (getCredentials_grows (fun e => ~ is_auth_verify e)
                (Common.user_id u) (fun _ H => H) (fun _ H => H) w) as Hgrow.
  destruct (getCredentials (Common.user_id u) w) as [[e|l] w1] eqn:Eg; simpl in *.
  - split; [by exists e|]. split; [exact Hgrow|]. split; [exact Hstore|].
    intros Hf. destruct w as [fs fl tr]. simpl in Hf. subst fl.
    rewrite getCredentials_ok in Eg. discriminate Eg.
  - rewrite find_none_not_elem; simpl.
    + split; [by eexists|]. split; [exact Hgrow|]. split; [exact Hstore|]. done.
    + by rewrite (getCredentials_inr _ _ _ _ Eg).
Qed.

End ForeignCredential.

Section VerifiedAuthentication.
Import Credential WebAuthn.


End VerifiedAuthentication.


(** ** Properties checked against the specification *)

(** C1. After a verified authentication the reply carries the new
    counter and the time of the call, but the document in the store is
    the one from before: /authResponse updates the object in memory and
    never calls [storeCredential]. Here the verifier reports counter 1
    at time 2000 for a credential stored with counter 0. *)
Theorem authResponse_counter_not_persisted :
  let r := WebAuthn.authResponse Sample.accepting Sample.no_android Sample.toBuffer
             (Sample.authentication (Some Sample.alice) Sample.challenged)
             Sample.registered_world in
  (exists c, r.1.1 = WebAuthn.Ok200 (WebAuthn.JsonStoredCredential c) /\
             counter c = 1 /\ last_used c = Some 2000) /\
  (exists c, credentials_coll (firestore r.2) !! "YzE" = Some c /\
             counter c = 0 /\ last_used c = None) /\
  Forall (fun e => ~ is_credential_write e) (trace r.2).
Proof.
  split; [|split].
  - eexists. split; [vm_compute; reflexivity|]. split; reflexivity.
  - exists Sample.credential_of_alice.
    rewrite authResponse_same_credentials. split; [reflexivity|]. split; reflexivity.
  - vm_compute. repeat constructor; auto.
Qed.

(** C2, as the specification has it, fails for /authResponse. An
    unauthenticated call is thrown out before the [try] and leaves the
    whole ceremony state in the session; and a successful call deletes
    the challenge and the timeout but not the enrollment type. *)
Lemma authResponse_leaves_ceremony_state :
  let anonymous :=
    WebAuthn.authResponse Sample.accepting Sample.no_android Sample.toBuffer
      (Sample.authentication None Sample.challenged) Sample.registered_world in
  let verified :=
    WebAuthn.authResponse Sample.accepting Sample.no_android Sample.toBuffer
      (Sample.authentication (Some Sample.alice) Sample.challenged)
      Sample.registered_world in
  (anonymous.1.1 = WebAuthn.Uncaught Unauthorized /\
   anonymous.1.2 = Sample.challenged /\ ~ released anonymous.1.2) /\
  (WebAuthn.failure verified.1.1 = None /\
   WebAuthn.type verified.1.2 = Some "platform" /\ ~ released verified.1.2).
Proof.
  split; (split; [vm_compute; reflexivity|]); (split; [vm_compute; reflexivity|]).
  - intros (H & _). vm_compute in H. discriminate H.
  - intros (_ & _ & H). vm_compute in H. discriminate H.
Qed.

(** C2, amended. /registerResponse deletes the challenge, the timeout and
    the enrollment type on every exit path, whatever the verifier and
    the backend do. /authResponse deletes the challenge and the timeout
    on every exit path that ends in a reply, that is on every path
    through its [try] block. *)
Theorem response_handlers_release_session V env tb :
  (forall req w, released (WebAuthn.registerResponse V env req w).1.2) /\
  (forall req w,
     replied (WebAuthn.authResponse V env tb req w).1.1 ->
     WebAuthn.challenge (WebAuthn.authResponse V env tb req w).1.2 = None /\
     WebAuthn.timeout (WebAuthn.authResponse V env tb req w).1.2 = None).
Proof.
  split.
  - apply registerResponse_released.
  - apply authResponse_replied_released.
Qed.

Lemma response_handlers_release_session_witness :
  WebAuthn.challenge
    (WebAuthn.authResponse Sample.accepting Sample.no_android Sample.toBuffer
       (Sample.authentication (Some Sample.bob) Sample.challenged)
       Sample.registered_world).1.2 = None /\
  WebAuthn.timeout
    (WebAuthn.authResponse Sample.accepting Sample.no_android Sample.toBuffer
       (Sample.authentication (Some Sample.bob) Sample.challenged)
       Sample.registered_world).1.2 = None.
Proof.
  apply (proj2 (response_handlers_release_session
                  Sample.accepting Sample.no_android Sample.toBuffer)).
  vm_compute. exact I.
Defined.

(** C3. Whatever the first call of /registerResponse does -- success,
    any error, any verifier, any backend fault -- the session it leaves
    holds no challenge, so a second call on that session never succeeds:
    made by an authenticated caller it fails with [NoChallenge], and it
    touches neither the verifier nor the store. *)
Theorem registerResponse_challenge_single_use V env req1 w1 req2 w2 :
  WebAuthn.session req2 = (WebAuthn.registerResponse V env req1 w1).1.2 ->
  WebAuthn.challenge (WebAuthn.session req2) = None /\
  WebAuthn.failure (WebAuthn.registerResponse V env req2 w2).1.1 <> None /\
  (is_Some (WebAuthn.user (WebAuthn.locals req2)) ->
   (WebAuthn.registerResponse V env req2 w2).1.1
     = WebAuthn.Caught NoChallenge (WebAuthn.JsonFailureMessage None) /\
   (WebAuthn.registerResponse V env req2 w2).2 = w2).
Proof.
  intros Hs.
  assert (Hc : WebAuthn.challenge (WebAuthn.session req2) = None).
  { rewrite Hs. apply (registerResponse_released V env req1 w1). }
  split; [exact Hc|].
  unfold WebAuthn.registerResponse, WebAuthn.registerResponse_try.
  rewrite Hc. simpl.
  destruct (WebAuthn.user (WebAuthn.locals req2)) as [u|]; simpl.
  - split; [discriminate|]. intros _. split; reflexivity.
  - split; [discriminate|]. intros [u Hu]. discriminate Hu.
Qed.

Lemma registerResponse_challenge_single_use_witness :
  let first :=
    WebAuthn.registerResponse Sample.accepting Sample.no_android
      (Sample.registration (Some Sample.alice) Sample.challenged) Sample.fresh in
  let second :=
    WebAuthn.registerResponse Sample.accepting Sample.no_android
      (Sample.registration (Some Sample.alice) first.1.2) first.2 in
  WebAuthn.failure first.1.1 = None /\
  second.1.1 = WebAuthn.Caught NoChallenge (WebAuthn.JsonFailureMessage None).
Proof.
  intros first second. split; [vm_compute; reflexivity|].
  destruct (registerResponse_challenge_single_use Sample.accepting Sample.no_android
              (Sample.registration (Some Sample.alice) Sample.challenged) Sample.fresh
              (Sample.registration (Some Sample.alice) first.1.2) first.2)
    as (_ & _ & H).
  - reflexivity.
  - apply H. eexists. reflexivity.
Defined.

(** C4. The resolver is meant to take the leading [[A-Za-z0-9_.]+] token
    of the user-agent and to return the key-hash origin when that token
    is a configured package name. With the package [com.example.app]
    configured and the user-agent [com.example.app[1.0]], the token of
    the specification is the package name, yet [getOrigin] returns the
    declared origin: its pattern [[a-zA-z0-9_.]] also takes the bracket
    and what follows into the token. A user-agent that continues with a
    character outside that range is resolved to the key-hash origin. *)
Theorem getOrigin_token_runs_past_package_name :
  let ua := "com.example.app[1.0]" in
  Origin.match_prefix spec_class ua = Some "com.example.app" /\
  Origin.match_prefix Origin.appRe_class ua = Some "com.example.app[1.0]" /\
  Origin.getOrigin Sample.android "https://example.com" (Some ua)
    = inr "https://example.com" /\
  Origin.getOrigin Sample.android "https://example.com" (Some "com.example.app/1.0")
    = inr "android:apk-key-hash:qrvM".
Proof. repeat split; vm_compute; reflexivity. Qed.

(** C5. [removeCredential] does not wait for the deletions of the
    device keys, nor does it look at their results, so it can complete
    with device keys still referring to the credential it deleted.
    On a database whose device-key documents are filed under their key
    (as [storeDevicePublicKey] files them), for the id of a document of
    the collection, when the backend answers the query and the deletion
    of the credential, [removeCredential] issues the query, the deletion
    of each key found and the deletion of the credential, and completes
    without an error whatever the backend did to the deletions of the
    keys; the credential is then absent, and the device keys that still
    refer to it are exactly those whose deletion the backend rejected.
    No key is left only when no deletion was rejected. *)
Theorem removeCredential_rejected_deletions_lost cid w fl rest :
  dpks_wf (firestore w) ->
  Doc.doc cid = inr (Doc.Document cid) ->
  let keys := Credential.query_dpks cid (firestore w) in
  length fl = length keys ->
  faults w = false :: fl ++ rest ->
  head rest <> Some true ->
  let r := Credential.removeCredential cid w in
  r.1 = inr () /\
  emitted w r.2 (DpksQuery cid :: (DpkDelete <$> keys) ++ [CredentialDelete cid]) /\
  credentials_coll (firestore r.2) !! cid = None /\
  (forall d, d ∈ Credential.query_dpks cid (firestore r.2) <->
             exists i, keys !! i = Some d /\ fl !! i = Some true).
Proof.
  destruct w as [fs fl0 tr]. simpl. intros Hwf Hdoc Hlen -> Hrest.
  rewrite (removeCredential_run cid cid fs fl rest tr Hdoc Hlen Hrest). simpl.
  split; [reflexivity|]. split; [reflexivity|]. split; [apply lookup_delete_eq|].
  intros d.
  rewrite <- (remaining_keys _ fl d (query_dpks_NoDup cid fs Hwf) Hlen).
  assert (Hwf' : dpks_wf
            {| credentials_coll := delete cid (credentials_coll fs);
               dpks_coll := foldl (fun m k => delete k m) (dpks_coll fs)
                              (with_flag false (Credential.query_dpks cid fs) fl) |}).
  { intros k row Hl. simpl in Hl. rewrite lookup_foldl_delete in Hl.
    destruct (decide _); [discriminate Hl|]. exact (Hwf k row Hl). }
  rewrite (elem_of_query_dpks_wf _ _ _ Hwf'), (elem_of_query_dpks_wf _ _ _ Hwf).
  simpl. rewrite lookup_foldl_delete. split.
  - intros (row & Hl & Hc). destruct (decide _) as [|Hout]; [discriminate Hl|].
    split; [by exists row | exact Hout].
  - intros [(row & Hl & Hc) Hout]. exists row.
    destruct (decide _) as [Hin|]; [by destruct Hout|]. by split.
Qed.

Lemma removeCredential_rejected_deletions_lost_witness :
  let w := with_faults [false; true]
             (Credential.storeCredential Sample.credential_of_alice
                Sample.with_device_key).2 in
  let r := Credential.removeCredential "YzE" w in
  reachable w /\
  credentials_coll (firestore w) !! "YzE" = Some Sample.credential_of_alice /\
  Credential.query_dpks "YzE" (firestore w) = ["k1"] /\
  r.1 = inr () /\
  credentials_coll (firestore r.2) !! "YzE" = None /\
  "k1" ∈ Credential.query_dpks "YzE" (firestore r.2).
Proof.
  split; [apply reach_faults, reach_storeCredential, reach_storeDevicePublicKey,
            (reach_start [])|].
  split; [vm_compute; reflexivity|]. split; [vm_compute; reflexivity|].
  destruct (removeCredential_rejected_deletions_lost "YzE"
              (with_faults [false; true]
                 (Credential.storeCredential Sample.credential_of_alice
                    Sample.with_device_key).2) [true] [])
    as (Hr & _ & Hc & Hk).
  - unfold dpks_wf. apply (bool_decide_unpack _). vm_compute. exact I.
  - vm_compute. reflexivity.
  - vm_compute. reflexivity.
  - reflexivity.
  - discriminate.
  - split; [exact Hr|]. split; [exact Hc|]. apply Hk. exists 0%nat.
    split; [vm_compute; reflexivity | reflexivity].
Defined.




(** C7. When the id a caller claims is not among that caller's own
    credentials, /authResponse never succeeds, never consults the
    verifier and leaves the store as it was -- whether or not another
    user holds a credential with that id, and whatever the backend does.
    With hostname and origin configured and the backend answering, the
    error is [CredentialNotFound]. *)
Theorem authResponse_foreign_credential V env tb
    (req : WebAuthn.Request AuthenticationCredentialJSON) w u :
  WebAuthn.user (WebAuthn.locals req) = Some u ->
  id (WebAuthn.body req) ∉
    credentialID <$> Credential.query_credentials (Common.user_id u) (firestore w) ->
  let r := WebAuthn.authResponse V env tb req w in
  WebAuthn.failure r.1.1 <> None /\
  grows (fun e => ~ is_auth_verify e) w r.2 /\
  firestore r.2 = firestore w /\
  (Js.truthy (WebAuthn.hostname (WebAuthn.locals req)) = true ->
   Js.truthy (WebAuthn.origin (WebAuthn.locals req)) = true ->
   (exists o, Origin.getOrigin env
                (default EmptyString (WebAuthn.origin (WebAuthn.locals req)))
                (WebAuthn.header_User_Agent req) = inr o) ->
   faults w = [] ->
   r.1.1 = WebAuthn.Caught CredentialNotFound (WebAuthn.JsonFailure CredentialNotFound)).
Proof.
  intros Hu Hnot r. subst r. unfold WebAuthn.authResponse. rewrite Hu.
  destruct (Js.truthy (WebAuthn.hostname _)); simpl;
    [|split; [done|]; split; [apply grows_refl|]; split; [reflexivity|done]].
  destruct (Js.truthy (WebAuthn.origin _)); simpl;
    [|split; [done|]; split; [apply grows_refl|]; split; [reflexivity|done]].
  destruct (Origin.getOrigin _ _ _) as [e|o]; simpl.
  { split; [done|]. split; [apply grows_refl|]. split; [reflexivity|].
    intros _ _ [o Ho]. discriminate Ho. }
  pose proof (authResponse_try_foreign V tb req u
                (Js.or_default (WebAuthn.challenge (WebAuthn.session req)) EmptyString)
                (default EmptyString (WebAuthn.hostname (WebAuthn.locals req)))
                o w Hnot) as (Hfail & Hgrow & Hstore & Hnf).
  destruct (WebAuthn.authResponse_try _ _ _ _ _ _ _ _) as [[e|c] w1]; simpl in *.
  - split; [done|]. split; [exact Hgrow|]. split; [exact Hstore|].
    intros _ _ _ Hf. specialize (Hnf Hf). by simplify_eq.
  - destruct Hfail as [e He]. discriminate He.
Qed.

Lemma authResponse_foreign_credential_witness :
  (exists k c, credentials_coll (firestore Sample.registered_world) !! k = Some c /\
               credentialID c = "YzE" /\ user_id c = "alice") /\
  (WebAuthn.authResponse Sample.accepting Sample.no_android Sample.toBuffer
     (Sample.authentication (Some Sample.bob) Sample.challenged)
     Sample.registered_world).1.1
  = WebAuthn.Caught CredentialNotFound (WebAuthn.JsonFailure CredentialNotFound).
Proof.
  split; [exists "YzE", Sample.credential_of_alice; repeat split|].
  apply (authResponse_foreign_credential Sample.accepting Sample.no_android
           Sample.toBuffer (Sample.authentication (Some Sample.bob) Sample.challenged)
           Sample.registered_world Sample.bob).
  - reflexivity.
  - vm_compute. intros H. inversion H.
  - reflexivity.
  - reflexivity.
  - eexists. vm_compute. reflexivity.
  - reflexivity.
Defined.







(** * Further properties of the code *)

(** ** Credential repository *)

Section RepositoryProperties.
Import Credential.

Lemma getDevicePublicKeys_ok cid fs tr :
  getDevicePublicKeys cid {| firestore := fs; faults := []; trace := tr |} =
  (inr (query_dpks cid fs),
   {| firestore := fs; faults := []; trace := tr ++ [DpksQuery cid] |}).
Proof. unfold getDevicePublicKeys. by rewrite call_ok. Qed.




Lemma elem_of_insert_desc (e c : StoredCredential) l :
  e ∈ insert_desc c l <-> e = c \/ e ∈ l.
Proof.
  induction l as [|z l IH]; simpl.
  - rewrite list_elem_of_singleton, elem_of_nil. tauto.
  - destruct (newer z c); rewrite !elem_of_cons; [rewrite IH|]; tauto.
Qed.

Lemma insert_desc_newest_first c l :
  Forall (fun x => is_Some (registered x)) (c :: l) ->
  newest_first l -> newest_first (insert_desc c l).
Proof.
  induction l as [|d l IH]; intros Hreg Hs; simpl.
  - split; [constructor | exact I].
  - apply Forall_cons in Hreg as [[x Hx] Hreg].
    apply Forall_cons in Hreg as [[y Hy] Hreg].
    destruct Hs as [Hd Hs]. unfold newer. rewrite Hx, Hy.
    destruct (x <? y) eqn:Hlt.
    + apply Z.ltb_lt in Hlt. split.
      * apply Forall_forall. intros e He.
        apply elem_of_insert_desc in He as [->|He'].
        -- unfold not_older. rewrite Hy, Hx. lia.
        -- rewrite Forall_forall in Hd. by apply Hd.
      * apply IH; [|exact Hs]. apply Forall_cons. split; [by exists x | exact Hreg].
    + apply Z.ltb_ge in Hlt. split; [|exact (conj Hd Hs)].
      apply Forall_cons. split.
      * unfold not_older. rewrite Hx, Hy. lia.
      * rewrite Forall_forall in Hd, Hreg. apply Forall_forall. intros e He.
        specialize (Hd e He). destruct (Hreg e He) as [z Hz].
        unfold not_older in *. rewrite Hy, Hz in Hd. rewrite Hx, Hz. lia.
Qed.

Lemma order_by_registered_desc_newest_first l :
  Forall (fun x => is_Some (registered x)) l ->
  newest_first (order_by_registered_desc l).
Proof.
  unfold order_by_registered_desc. induction l as [|c l IH]; intros Hreg; simpl; [exact I|].
  apply Forall_cons in Hreg as [Hc Hreg].
  apply insert_desc_newest_first; [|by apply IH].
  apply Forall_cons. split; [exact Hc|].
  apply Forall_forall. intros e He. rewrite Forall_forall in Hreg. apply Hreg.
  clear -He. induction l as [|z l IHl]; simpl in He; [by apply elem_of_nil in He|].
  apply elem_of_insert_desc in He as [->|He]; [left | right; by apply IHl].
Qed.

Lemma order_by_registered_desc_Permutation l :
  order_by_registered_desc l ≡ₚ l.
Proof.
  unfold order_by_registered_desc. induction l as [|c l IH]; simpl; [done|].
  rewrite <- IH at 2. generalize (foldr insert_desc [] l). clear.
  intros l. induction l as [|d l IH]; simpl; [done|].
  destruct (newer d c); [|done].
  rewrite IH. apply Permutation_swap.
Qed.

Lemma newest_first_fmap (f : StoredCredential -> StoredCredential) l :
  (forall c, registered (f c) = registered c) ->
  newest_first l -> newest_first (f <$> l).
Proof.
  intros Hf. induction l as [|a l IH]; simpl; [done|]. intros [Ha Hs].
  split; [|by apply IH].
  apply Forall_fmap. eapply Forall_impl; [exact Ha|].
  intros b Hb. unfold not_older in *. simpl. by rewrite !Hf.
Qed.

End RepositoryProperties.





(** X3. [removeDevicePublicKey] takes the key off every credential's
    list and changes nothing else: every other key stays listed where it
    was, and the credentials are untouched. *)
Theorem removeDevicePublicKey_forgets d w :
  dpks_wf (firestore w) ->
  faults w = [] ->
  let w1 := (Credential.removeDevicePublicKey d w).2 in
  (forall c, d ∉ Credential.query_dpks c (firestore w1)) /\
  (forall c d', d' <> d ->
     d' ∈ Credential.query_dpks c (firestore w1) <->
     d' ∈ Credential.query_dpks c (firestore w)) /\
  credentials_coll (firestore w1) = credentials_coll (firestore w).
Proof.
  destruct w as [fs fl tr]. simpl. intros Hwf ->.
  unfold Credential.removeDevicePublicKey. rewrite call_ok. simpl.
  assert (Hwf' : dpks_wf {| credentials_coll := credentials_coll fs;
                            dpks_coll := delete d (dpks_coll fs) |}).
  { unfold dpks_wf. simpl. by apply map_Forall_delete. }
  split; [|split; [|reflexivity]].
  - intros c H. apply (elem_of_query_dpks_wf _ _ _ Hwf') in H as (row & Hl & _).
    simpl in Hl. by rewrite lookup_delete_eq in Hl.
  - intros c d' Hne.
    rewrite (elem_of_query_dpks_wf _ _ _ Hwf'), (elem_of_query_dpks_wf _ _ _ Hwf).
    simpl. by rewrite lookup_delete_ne.
Qed.

Lemma removeDevicePublicKey_forgets_witness :
  let w1 := (Credential.removeDevicePublicKey "k1" Scenario.populated).2 in
  ("k1" ∉ Credential.query_dpks "YzE" (firestore w1)) /\
  ("k2" ∈ Credential.query_dpks "YzE" (firestore w1)).
Proof.
  destruct (removeDevicePublicKey_forgets "k1" Scenario.populated) as (Hgone & Hkeep & _).
  - unfold dpks_wf. apply (bool_decide_unpack _). vm_compute. exact I.
  - reflexivity.
  - split; [apply Hgone|]. apply Hkeep; [discriminate|].
    apply (bool_decide_unpack _). vm_compute. exact I.
Defined.

(** X4. The cascade of [removeCredential] is confined to what it is
    given: every credential document other than the one the id points
    to -- for an id without a slash, every document filed under another
    id -- and the list of device keys of every other credential id is
    the same afterwards. *)
Theorem removeCredential_scoped cid w :
  dpks_wf (firestore w) ->
  faults w = [] ->
  let w1 := (Credential.removeCredential cid w).2 in
  (forall k, Doc.doc cid <> inr (Doc.Document k) ->
     credentials_coll (firestore w1) !! k = credentials_coll (firestore w) !! k) /\
  (forall c d, c <> cid ->
     d ∈ Credential.query_dpks c (firestore w1) <->
     d ∈ Credential.query_dpks c (firestore w)).
Proof.
  destruct w as [fs fl tr]. simpl. intros Hwf ->.
  destruct (removeCredential_store_ok cid fs tr) as [Hkeys Hdoc]. split.
  - intros k Hk. destruct (Doc.doc cid) as [e|[id|path]].
    + destruct Hdoc as [_ ->]. reflexivity.
    + destruct Hdoc as [_ ->]. apply lookup_delete_ne. congruence.
    + destruct Hdoc as [_ ->]. reflexivity.
  - intros c d Hc. rewrite !elem_of_query_dpks. rewrite Hkeys. split.
    + intros (k & row & Hl & Hcr & Hd). exists k, row.
      rewrite lookup_foldl_delete in Hl. destruct (decide _); [discriminate|]. done.
    + intros (k & row & Hl & Hcr & Hd). exists k, row.
      split; [|done]. rewrite lookup_foldl_delete.
      destruct (decide (k ∈ Credential.query_dpks cid fs)) as [Hin|]; [|done].
      apply (elem_of_query_dpks_wf _ _ _ Hwf) in Hin as (row' & Hl' & Hc').
      rewrite Hl in Hl'. by simplify_eq.
Qed.

Lemma removeCredential_scoped_witness :
  let w1 := (Credential.removeCredential "YzE" Scenario.populated).2 in
  credentials_coll (firestore w1) !! "Ym9i" = Some Scenario.credential_of_bob /\
  ("k3" ∈ Credential.query_dpks "Ym9i" (firestore w1)).
Proof.
  destruct (removeCredential_scoped "YzE" Scenario.populated) as (Hc & Hk).
  - unfold dpks_wf. apply (bool_decide_unpack _). vm_compute. exact I.
  - reflexivity.
  - split.
    + rewrite Hc; [reflexivity | vm_compute; discriminate].
    + apply Hk; [discriminate|]. apply (bool_decide_unpack _). vm_compute. exact I.
Defined.

(** X5. With the backend answering, [getCredentials] returns exactly the
    stored credentials of the given user that carry a registration time,
    each once and with its [dpks] field filled with its own device keys,
    ordered from the newest registration to the oldest; a user without
    credentials gets the empty list. The store is not changed. *)
Theorem getCredentials_lists_user_credentials uid w :
  faults w = [] ->
  exists l,
    (Credential.getCredentials uid w).1 = inr l /\
    (forall c, c ∈ l <->
       exists k c0, credentials_coll (firestore w) !! k = Some c0 /\
                    user_id c0 = uid /\ is_Some (registered c0) /\
                    c = listed (firestore w) c0) /\
    newest_first l /\
    l ≡ₚ listed (firestore w) <$>
           filter (fun c => user_id c = uid /\ is_Some (registered c))
             (snd <$> map_to_list (credentials_coll (firestore w))) /\
    ((forall k c0, credentials_coll (firestore w) !! k = Some c0 -> user_id c0 <> uid) ->
     l = []) /\
    firestore (Credential.getCredentials uid w).2 = firestore w.
Proof.
  destruct w as [fs fl tr]. simpl. intros ->.
  rewrite getCredentials_ok. simpl. eexists. split; [reflexivity|].
  split; [|split; [|split; [|split; [|reflexivity]]]].
  - intros c. rewrite list_elem_of_fmap. split.
    + intros (c0 & -> & Hin). apply elem_of_query_credentials in Hin as ((k & Hk) & Hu & Hr).
      by exists k, c0.
    + intros (k & c0 & Hk & Hu & Hr & ->). exists c0. split; [reflexivity|].
      apply elem_of_query_credentials. eauto.
  - apply newest_first_fmap; [reflexivity|].
    unfold Credential.query_credentials.
    apply order_by_registered_desc_newest_first.
    apply Forall_forall. intros c Hc. by apply list_elem_of_filter in Hc as [[_ ?] _].
  - unfold Credential.query_credentials.
    by rewrite order_by_registered_desc_Permutation.
  - intros Hnone.
    destruct (Credential.query_credentials uid fs) as [|c l] eqn:E; [reflexivity|].
    assert (Hin : c ∈ Credential.query_credentials uid fs) by (rewrite E; left).
    apply elem_of_query_credentials in Hin as ((k & Hk) & Hu & _).
    by destruct (Hnone k c Hk).
Qed.

Lemma getCredentials_lists_user_credentials_witness :
  exists l, (Credential.getCredentials "alice" Scenario.populated).1 = inr l /\
            newest_first l /\
            (listed (firestore Scenario.populated) Sample.credential_of_alice ∈ l).
Proof.
  destruct (getCredentials_lists_user_credentials "alice" Scenario.populated eq_refl)
    as (l & Hl & Hmem & Hsorted & _ & _).
  exists l. split; [exact Hl|]. split; [exact Hsorted|].
  apply Hmem. exists "YzE", Sample.credential_of_alice.
  split; [reflexivity|]. split; [reflexivity|]. split; [by eexists | reflexivity].
Defined.

(** X6. The three read operations never change the store, whatever the
    backend does to their calls. *)
Theorem reads_leave_store w :
  (forall cid, firestore (Credential.getCredential cid w).2 = firestore w) /\
  (forall cid, firestore (Credential.getDevicePublicKeys cid w).2 = firestore w) /\
  (forall uid, firestore (Credential.getCredentials uid w).2 = firestore w).
Proof.
  split; [|split].
  - intros cid. apply (same_store_call _ _). reflexivity.
  - intros cid. apply (same_store_call _ _). reflexivity.
  - intros uid. apply getCredentials_same_store.
Qed.

Section ListingFaults.
Import Credential.

Lemma for_each_dpks_faults l fs fl tr :
  let r := for_each (fun cred => d <- getDevicePublicKeys (credentialID cred) ;;
                                 ret (with_dpks cred d)) l
             {| firestore := fs; faults := fl; trace := tr |} in
  (Forall (fun b => b = false) (take (length l) fl) -> exists ys, r.1 = inr ys) /\
  (~ Forall (fun b => b = false) (take (length l) fl) -> r.1 = inl StorageError).
Proof.
  revert fl tr. induction l as [|c l IH]; intros fl tr; simpl.
  - split; [by eexists | intros H; destruct H; constructor].
  - rewrite bind_run, bind_run. unfold getDevicePublicKeys. rewrite call_run.
    destruct fl as [|[] rest]; simpl.
    + rewrite bind_run.
      destruct (IH [] (tr ++ [DpksQuery (credentialID c)])) as [Hok _].
      destruct Hok as [ys Hys]; [by rewrite take_nil|].
      destruct (for_each _ l _) as [[e|ys'] w']; simpl in *; [discriminate|].
      split; [by eexists | intros H; destruct H; constructor].
    + split; [|done]. intros H. apply Forall_cons in H as [H _]. discriminate.
    + rewrite bind_run.
      destruct (IH rest (tr ++ [DpksQuery (credentialID c)])) as [Hok Hko].
      destruct (for_each _ l _) as [[e|ys'] w']; simpl in *.
      * split.
        -- intros H. apply Forall_cons in H as [_ H]. destruct (Hok H) as [? ?]. discriminate.
        -- intros H. apply Hko. intros H'. apply H. by constructor.
      * split; [by eexists|]. intros H. exfalso. apply H. constructor; [done|].
        destruct (decide (Forall (fun b => b = false) (take (length l) rest))) as [|Hn];
          [done|]. specialize (Hko Hn). discriminate.
Qed.

End ListingFaults.

Lemma getCredentials_faults uid w :
  let n := length (Credential.query_credentials uid (firestore w)) in
  let answered := Forall (fun b => b = false) (take (S n) (faults w)) in
  (answered -> exists l, (Credential.getCredentials uid w).1 = inr l /\ length l = n) /\
  (~ answered -> (Credential.getCredentials uid w).1 = inl StorageError).
Proof.
  destruct w as [fs fl tr]. simpl.
  unfold Credential.getCredentials. rewrite bind_run, call_run.
  destruct fl as [|[] rest]; simpl.
  - rewrite for_each_dpks_ok. simpl. split.
    + intros _. eexists. split; [reflexivity|]. by rewrite length_fmap.
    + intros H. destruct H. constructor.
  - split; [|done]. intros H. apply Forall_cons in H as [H _]. discriminate.
  - destruct (for_each_dpks_faults (Credential.query_credentials uid fs) fs rest
                (tr ++ [CredentialsQuery uid])) as [Hok Hko].
    destruct (for_each _ _ _) as [[e|ys] w'] eqn:E; simpl in *.
    + split.
      * intros H. apply Forall_cons in H as [_ H]. destruct (Hok H) as [? ?]. discriminate.
      * intros H. apply Hko. intros H'. apply H. by constructor.
    + split.
      * intros _. exists ys. split; [reflexivity|].
        apply (for_each_inr (fun _ _ => True)) in E; [|done].
        symmetry. by eapply Forall2_length.
      * intros H. exfalso. apply H. constructor; [done|].
        destruct (decide (Forall (fun b => b = false)
                            (take (length (Credential.query_credentials uid fs)) rest)))
          as [|Hn]; [done|]. specialize (Hko Hn). discriminate.
Qed.

(** X7. [getCredentials] asks the backend once for the credentials and
    once more for the device keys of each credential found. It returns a
    list only when every one of these calls is answered; if the backend
    rejects any of them, the whole call fails with the backend's error
    and no partial list is returned. *)
Theorem getCredentials_all_or_nothing uid w :
  let n := length (Credential.query_credentials uid (firestore w)) in
  let answered := Forall (fun b => b = false) (take (S n) (faults w)) in
  (answered -> exists l, (Credential.getCredentials uid w).1 = inr l /\ length l = n) /\
  (~ answered -> (Credential.getCredentials uid w).1 = inl StorageError).
Proof. apply getCredentials_faults. Qed.

Lemma getCredentials_all_or_nothing_witness :
  (Credential.getCredentials "alice"
     (with_faults [false; false; true] Scenario.populated)).1 = inl StorageError.
Proof.
  apply (getCredentials_all_or_nothing "alice"
           (with_faults [false; false; true] Scenario.populated)).
  vm_compute. intros Ha. inversion Ha as [|? ? _ Hb]. inversion Hb as [|? ? _ Hc].
  inversion Hc as [|? ? Hd _]. discriminate Hd.
Defined.

(** ** Management handlers *)

Section ManagementFacts.
Import Credential WebAuthn.

Lemma forEach_remove_answered items fs fl tr :
  forEach_remove items
    {| firestore := fs; faults := replicate (length items) false ++ fl; trace := tr |} =
  (inr (),
   {| firestore :=
        {| credentials_coll := credentials_coll fs;
           dpks_coll := foldl (fun m d => delete d m) (dpks_coll fs) items |};
      faults := fl;
      trace := tr ++ (DpkDelete <$> items) |}).
Proof.
  revert fs tr. induction items as [|d items IH]; intros fs tr; simpl.
  - rewrite app_nil_r. by destruct fs.
  - rewrite bind_run. unfold detached, removeDevicePublicKey. rewrite call_run.
    simpl. rewrite IH. simpl. by rewrite <- app_assoc.
Qed.

End ManagementFacts.

(** X8. /removeCredential acts for any authenticated caller: the
    handler never compares the owner of a credential with the caller,
    and the only check of the [credId] it is sent is the one the
    Firestore client makes when the reference is built. With the backend
    answering, every device key listed for the [credId] is deleted. If
    the client takes the [credId] for a document of the collection, the
    reply is [{status: true}] and that document is gone, whoever owned
    it and also when there was none; if it takes it for a document of a
    sub-collection, the reply is [{status: true}] and the credentials
    are as before; if it refuses it (the empty text among others), the
    reply is 400 [{status: false}] and the credentials are as before. *)
Theorem removeCredential_handler_any_owner (req : WebAuthn.Request string) w :
  is_Some (WebAuthn.user (WebAuthn.locals req)) ->
  dpks_wf (firestore w) ->
  faults w = [] ->
  let r := WebAuthn.removeCredential_handler req w in
  Credential.query_dpks (WebAuthn.body req) (firestore r.2) = [] /\
  match Doc.doc (WebAuthn.body req) with
  | inr (Doc.Document id) =>
      r.1 = WebAuthn.Sent 200 (WebAuthn.JsonStatus true None) /\
      credentials_coll (firestore r.2) = delete id (credentials_coll (firestore w))
  | inr (Doc.SubDocument _) =>
      r.1 = WebAuthn.Sent 200 (WebAuthn.JsonStatus true None) /\
      credentials_coll (firestore r.2) = credentials_coll (firestore w)
  | inl _ =>
      r.1 = WebAuthn.Sent 400 (WebAuthn.JsonStatus false None) /\
      credentials_coll (firestore r.2) = credentials_coll (firestore w)
  end.
Proof.
  intros [u Hu] Hwf Hf. unfold WebAuthn.removeCredential_handler. rewrite Hu.
  destruct w as [fs fl tr]. simpl in Hf, Hwf. subst fl.
  destruct (removeCredential_store_ok (WebAuthn.body req) fs tr) as [Hkeys Hdoc].
  cbn [firestore]. split.
  - apply elem_of_nil_inv. intros d Hd.
    apply elem_of_query_dpks in Hd as (k & row & Hl & Hc & Hk).
    assert (Hl' : dpks_coll fs !! k = Some row /\
                  k ∉ Credential.query_dpks (WebAuthn.body req) fs).
    { destruct (Credential.removeCredential _ _) as [[e|[]] w1] in *;
        simpl in Hl, Hkeys; rewrite Hkeys, lookup_foldl_delete in Hl;
        by destruct (decide _). }
    destruct Hl' as [Hl0 Hnin]. apply Hnin. apply elem_of_query_dpks.
    exists k, row. split; [exact Hl0|]. split; [exact Hc|]. exact (Hwf k row Hl0).
  - destruct (Doc.doc (WebAuthn.body req)) as [e|[id|path]];
      destruct Hdoc as [Hr Hc];
      destruct (Credential.removeCredential _ _) as [[e'|[]] w1];
      simpl in Hr, Hc |- *; try discriminate Hr; by split.
Qed.

Lemma removeCredential_handler_any_owner_witness :
  let req := {| WebAuthn.locals := Sample.locals_of (Some Sample.bob);
                WebAuthn.session := Sample.idle; WebAuthn.body := "YzE";
                WebAuthn.header_User_Agent := None; WebAuthn.useragent := None;
                WebAuthn.now := 4000 |} in
  (exists c, credentials_coll (firestore Scenario.populated) !! "YzE" = Some c /\
             user_id c = "alice") /\
  (WebAuthn.removeCredential_handler req Scenario.populated).1
    = WebAuthn.Sent 200 (WebAuthn.JsonStatus true None) /\
  credentials_coll
    (firestore (WebAuthn.removeCredential_handler req Scenario.populated).2) !! "YzE"
  = None.
Proof.
  intros req. split; [exists Sample.credential_of_alice; split; reflexivity|].
  destruct (removeCredential_handler_any_owner req Scenario.populated)
    as (_ & Hdoc).
  - eexists. reflexivity.
  - unfold dpks_wf. apply (bool_decide_unpack _). vm_compute. exact I.
  - reflexivity.
  - assert (E : Doc.doc (WebAuthn.body req) = inr (Doc.Document "YzE"))
      by (vm_compute; reflexivity).
    rewrite E in Hdoc. destruct Hdoc as [Hr Hc].
    split; [exact Hr|]. rewrite Hc. apply lookup_delete_eq.
Defined.

(** X9. /getCredentials answers an authenticated caller with the list
    [getCredentials] returns for that caller. When the backend rejects
    one of the calls the list needs, the reply is 401 with the error
    text [Unauthorized], although the caller is authenticated. *)
Theorem getCredentials_handler_replies (req : WebAuthn.Request unit) w u :
  WebAuthn.user (WebAuthn.locals req) = Some u ->
  let uid := Common.user_id u in
  let n := length (Credential.query_credentials uid (firestore w)) in
  let answered := Forall (fun b => b = false) (take (S n) (faults w)) in
  let r := WebAuthn.getCredentials_handler req w in
  (answered ->
   exists l, r.1 = WebAuthn.Sent 200 (WebAuthn.JsonCredentials l) /\
             (Credential.getCredentials uid w).1 = inr l) /\
  (~ answered ->
   r.1 = WebAuthn.Sent 401
           (WebAuthn.JsonStatus false (Some (ThrownString "Unauthorized")))) /\
  firestore r.2 = firestore w.
Proof.
  intros Hu uid n answered r. subst r. unfold WebAuthn.getCredentials_handler.
  rewrite Hu. fold uid.
  destruct (getCredentials_faults uid w) as [Hok Hko].
  pose proof (getCredentials_same_store uid w) as Hstore.
  destruct (Credential.getCredentials uid w) as [[e|l] w'] eqn:E; simpl in *.
  - split; [|split; [done | exact Hstore]].
    intros Ha. destruct (Hok Ha) as (l & Hl & _). discriminate Hl.
  - split; [|split; [|exact Hstore]].
    + intros _. by exists l.
    + intros Hn. specialize (Hko Hn). discriminate Hko.
Qed.

Lemma getCredentials_handler_replies_witness :
  let req := {| WebAuthn.locals := Sample.locals_of (Some Sample.alice);
                WebAuthn.session := Sample.idle; WebAuthn.body := ();
                WebAuthn.header_User_Agent := None; WebAuthn.useragent := None;
                WebAuthn.now := 4000 |} in
  (WebAuthn.getCredentials_handler req
     (with_faults [false; true] Scenario.populated)).1
  = WebAuthn.Sent 401 (WebAuthn.JsonStatus false (Some (ThrownString "Unauthorized"))).
Proof.
  intros req.
  apply (getCredentials_handler_replies req
           (with_faults [false; true] Scenario.populated) Sample.alice eq_refl).
  vm_compute. intros Ha. inversion Ha as [|? ? _ Hb]. inversion Hb as [|? ? Hc _].
  discriminate Hc.
Defined.

(** X10. The cascade of /removeCredential is not atomic. When the
    backend answers the query and the deletions of the device keys but
    rejects the deletion of the credential, the handler replies 400
    [{status: false}]: the credential is still stored, and its device
    keys are already gone. *)
Theorem removeCredential_handler_partial (req : WebAuthn.Request string) w rest :
  is_Some (WebAuthn.user (WebAuthn.locals req)) ->
  dpks_wf (firestore w) ->
  let cid := WebAuthn.body req in
  let n := length (Credential.query_dpks cid (firestore w)) in
  faults w = replicate (S n) false ++ true :: rest ->
  let r := WebAuthn.removeCredential_handler req w in
  r.1 = WebAuthn.Sent 400 (WebAuthn.JsonStatus false None) /\
  credentials_coll (firestore r.2) = credentials_coll (firestore w) /\
  Credential.query_dpks cid (firestore r.2) = [].
Proof.
  intros [u Hu] Hwf cid n Hf r. subst r. unfold WebAuthn.removeCredential_handler.
  rewrite Hu. fold cid. destruct w as [fs fl tr]. simpl in Hf, Hwf, n. subst fl.
  unfold Credential.removeCredential. rewrite bind_run.
  unfold Credential.getDevicePublicKeys. rewrite call_run. simpl.
  rewrite bind_run. fold n.
  rewrite (forEach_remove_answered (Credential.query_dpks cid fs) fs (true :: rest)).
  rewrite bind_run. unfold lift, Credential.delete_reference.
  assert (Hkeys : forall d, d ∉ Credential.query_dpks cid
            {| credentials_coll := credentials_coll fs;
               dpks_coll := foldl (fun m d => delete d m) (dpks_coll fs)
                              (Credential.query_dpks cid fs) |});
    [|destruct (Doc.doc cid) as [e|[id|path]]; [|rewrite call_run..]; simpl;
      (split; [reflexivity|]); (split; [by destruct fs|]);
      apply elem_of_nil_inv; intros d; destruct fs; apply Hkeys].
  intros d Hd.
  apply elem_of_query_dpks in Hd as (k & row & Hl & Hc & Hk). simpl in Hl.
  rewrite lookup_foldl_delete in Hl.
  destruct (decide (k ∈ Credential.query_dpks cid fs)) as [Hin|Hnin];
    [discriminate Hl|].
  apply Hnin. apply elem_of_query_dpks. exists k, row.
  split; [exact Hl|]. split; [exact Hc|]. exact (Hwf k row Hl).
Qed.

Lemma removeCredential_handler_partial_witness :
  let req := {| WebAuthn.locals := Sample.locals_of (Some Sample.alice);
                WebAuthn.session := Sample.idle; WebAuthn.body := "YzE";
                WebAuthn.header_User_Agent := None; WebAuthn.useragent := None;
                WebAuthn.now := 4000 |} in
  let r := WebAuthn.removeCredential_handler req
             (with_faults [false; false; false; true] Scenario.populated) in
  r.1 = WebAuthn.Sent 400 (WebAuthn.JsonStatus false None) /\
  credentials_coll (firestore r.2) !! "YzE" = Some Sample.credential_of_alice /\
  Credential.query_dpks "YzE" (firestore r.2) = [].
Proof.
  intros req r.
  destruct (removeCredential_handler_partial req
              (with_faults [false; false; false; true] Scenario.populated) [])
    as (Hr & Hc & Hk).
  - eexists. reflexivity.
  - unfold dpks_wf. apply (bool_decide_unpack _). vm_compute. exact I.
  - vm_compute. reflexivity.
  - split; [exact Hr|]. split; [|exact Hk]. subst r. rewrite Hc. reflexivity.
Defined.

(** ** Request handlers *)

Section RequestFacts.
Import WebAuthn.

Lemma keep_if_one_of_allowed x allowed v :
  keep_if_one_of x allowed = Some v -> v ∈ allowed.
Proof.
  unfold keep_if_one_of, one_of. destruct x as [y|]; [|discriminate].
  destruct (existsb (String.eqb y) allowed) eqn:E; [|discriminate].
  intros H. simplify_eq. apply existsb_exists in E as (z & Hz & Heq).
  apply String.eqb_eq in Heq as ->. by apply list_elem_of_In.
Qed.

Lemma one_of_default x allowed d :
  d ∈ allowed -> (if one_of x allowed then default d x else d) ∈ allowed.
Proof.
  intros Hd. unfold one_of. destruct x as [y|]; [|exact Hd].
  destruct (existsb (String.eqb y) allowed) eqn:E; [|exact Hd].
  apply existsb_exists in E as (z & Hz & Heq).
  apply String.eqb_eq in Heq as ->. by apply list_elem_of_In.
Qed.

Lemma number_or_nonzero n d : d <> 0 -> number_or n d <> 0.
Proof.
  intros Hd. unfold number_or. destruct n as [t|]; [|exact Hd].
  destruct (t =? 0) eqn:E; [exact Hd | by apply Z.eqb_neq].
Qed.

Lemma or_default_nonempty o d : d <> EmptyString -> Js.or_default o d <> EmptyString.
Proof. intros Hd. by destruct o as [[|]|]. Qed.

End RequestFacts.

(** X11. Whatever the client sends, the arguments /registerRequest gives
    to the options generator are validated: the attestation is one of
    [none], [indirect], [direct], [enterprise]; the authenticator
    attachment, resident key and user verification are either left out
    or one of their recognised values; the user name, the display name
    and the relying-party name are never empty; and the timeout is never
    zero. Unrecognised values are dropped, not rejected. *)
Theorem registration_opts_validated PROJECT_NAME sha256 u h body :
  let o := WebAuthn.registration_opts PROJECT_NAME sha256 u h body in
  let sel := WebAuthn.gen_authenticatorSelection o in
  (WebAuthn.attestationType o ∈ ["none"; "indirect"; "direct"; "enterprise"]) /\
  (forall v, WebAuthn.sel_authenticatorAttachment sel = Some v ->
             v ∈ ["platform"; "cross-platform"]) /\
  (forall v, WebAuthn.sel_residentKey sel = Some v ->
             v ∈ ["required"; "preferred"; "discouraged"]) /\
  (forall v, WebAuthn.sel_userVerification sel = Some v ->
             v ∈ ["required"; "preferred"; "discouraged"]) /\
  WebAuthn.userName o <> EmptyString /\
  WebAuthn.userDisplayName o <> EmptyString /\
  WebAuthn.rpName o <> EmptyString /\
  WebAuthn.gen_timeout o <> 0.
Proof.
  intros o sel. subst sel o. unfold WebAuthn.registration_opts.
  cbn [WebAuthn.attestationType WebAuthn.gen_authenticatorSelection
       WebAuthn.sel_authenticatorAttachment WebAuthn.sel_residentKey
       WebAuthn.sel_userVerification WebAuthn.userName WebAuthn.userDisplayName
       WebAuthn.rpName WebAuthn.gen_timeout].
  split; [apply one_of_default; left|].
  split; [intros v; apply keep_if_one_of_allowed|].
  split; [intros v; apply keep_if_one_of_allowed|].
  split; [intros v; apply keep_if_one_of_allowed|].
  split; [apply or_default_nonempty, or_default_nonempty; discriminate|].
  split; [apply or_default_nonempty, or_default_nonempty; discriminate|].
  split; [apply or_default_nonempty; discriminate|].
  apply number_or_nonzero. discriminate.
Qed.

(** X12. /registerRequest always replies. Either it issued options: the
    caller is authenticated, the hostname is configured, the generator
    returned, and the session now holds the generator's challenge, a
    deadline of five minutes from now -- whatever custom timeout the
    client asked for -- and the requested attachment exactly as it was
    sent ([undefined] if none was sent). Or it replies 400 with the error
    and leaves the session as it was. *)
Theorem registerRequest_issues_or_keeps G PROJECT_NAME sha256
    (req : WebAuthn.Request (option WebAuthn.WebAuthnRegistrationObject)) entropy :
  let r := WebAuthn.registerRequest G PROJECT_NAME sha256 req entropy in
  let creationOptions :=
    default WebAuthn.empty_registration_object (WebAuthn.body req) in
  let aa := WebAuthn.cre_authenticatorSelection creationOptions
              ≫= WebAuthn.sel_authenticatorAttachment in
  (exists u o,
     WebAuthn.user (WebAuthn.locals req) = Some u /\
     Js.truthy (WebAuthn.hostname (WebAuthn.locals req)) = true /\
     WebAuthn.generateRegistrationOptions G entropy
       (WebAuthn.registration_opts PROJECT_NAME sha256 u
          (default EmptyString (WebAuthn.hostname (WebAuthn.locals req)))
          creationOptions) = inr o /\
     r.1 = WebAuthn.Sent 200 (WebAuthn.JsonOptions (WebAuthn.issued_json o)) /\
     r.2 = {| WebAuthn.challenge := Some (WebAuthn.issued_challenge o);
              WebAuthn.timeout := Some (WebAuthn.now req + 300000);
              WebAuthn.type := Some (Js.or_default aa "undefined") |}) \/
  (exists e,
     r.1 = WebAuthn.Sent 400 (WebAuthn.JsonStatus false (Some e)) /\
     r.2 = WebAuthn.session req).
Proof.
  intros r creationOptions aa. subst r. unfold WebAuthn.registerRequest.
  destruct (WebAuthn.user (WebAuthn.locals req)) as [u|]; [|right; by eexists].
  destruct (Js.truthy (WebAuthn.hostname (WebAuthn.locals req))) eqn:Hh; simpl;
    [|right; by eexists].
  fold creationOptions.
  destruct (WebAuthn.generateRegistrationOptions G entropy _) as [e|o] eqn:Eg;
    [right; by eexists|].
  left. exists u, o. repeat split; done.
Qed.

(** X13. /authRequest leaves an unauthenticated request unanswered.
    For an authenticated caller it does not look at the hostname: the
    relying-party id it gives to the generator is [res.locals.hostname]
    as it is, configured or not. When the generator returns, the session
    holds its challenge and a deadline of five minutes from now, and the
    enrollment type of an earlier registration ceremony stays in the
    session; otherwise the reply is 400 and the session is as it was. *)
Theorem authRequest_issues_or_keeps G
    (req : WebAuthn.Request (option WebAuthn.WebAuthnAuthenticationObject)) entropy :
  let r := WebAuthn.authRequest G req entropy in
  (WebAuthn.user (WebAuthn.locals req) = None ->
   r = (WebAuthn.Unanswered Unauthorized, WebAuthn.session req)) /\
  (is_Some (WebAuthn.user (WebAuthn.locals req)) ->
   (exists b o,
      WebAuthn.body req = Some b /\
      WebAuthn.generateAuthenticationOptions G entropy
        {| WebAuthn.ga_timeout :=
             WebAuthn.number_or (WebAuthn.ask_customTimeout b) 300000;
           WebAuthn.ga_userVerification :=
             Js.or_default (WebAuthn.ask_userVerification b) "preferred";
           WebAuthn.ga_rpID := WebAuthn.hostname (WebAuthn.locals req) |} = inr o /\
      r.1 = WebAuthn.Sent 200 (WebAuthn.JsonOptions (WebAuthn.issued_json o)) /\
      r.2 = {| WebAuthn.challenge := Some (WebAuthn.issued_challenge o);
               WebAuthn.timeout := Some (WebAuthn.now req + 300000);
               WebAuthn.type := WebAuthn.type (WebAuthn.session req) |}) \/
   (exists e,
      r.1 = WebAuthn.Sent 400 (WebAuthn.JsonStatus false (Some e)) /\
      r.2 = WebAuthn.session req)).
Proof.
  intros r. subst r. unfold WebAuthn.authRequest. split.
  - by intros ->.
  - intros [u ->]. destruct (WebAuthn.body req) as [b|]; [|right; by eexists].
    destruct (WebAuthn.generateAuthenticationOptions G entropy _) as [e|o] eqn:Eg;
      [right; by eexists|].
    left. exists b, o. repeat split; done.
Qed.

Lemma authRequest_issues_or_keeps_witness :
  let r := WebAuthn.authRequest Issuing.fixed
             (Issuing.authentication_request None Sample.challenged) [] in
  r.1 = WebAuthn.Sent 200 (WebAuthn.JsonOptions "{}") /\
  WebAuthn.type r.2 = Some "platform".
Proof.
  intros r.
  destruct (authRequest_issues_or_keeps Issuing.fixed
              (Issuing.authentication_request None Sample.challenged) [])
    as [_ H].
  destruct H as [(b & o & Hb & Ho & Hr & Hs)|(e & He & _)].
  - eexists. reflexivity.
  - vm_compute in Ho. simplify_eq. split; [exact Hr|]. subst r. by rewrite Hs.
  - vm_compute in He. discriminate He.
Defined.

(** X14. Because /authRequest never checks the hostname, a challenge can
    be issued on a server without a configured hostname. The
    /authResponse that follows then throws [Hostname not configured.]
    before its [try]: the request gets no reply, the store is not
    touched and the issued challenge stays in the session. *)
Theorem authRequest_without_hostname G V env tb
    (req : WebAuthn.Request (option WebAuthn.WebAuthnAuthenticationObject)) entropy
    (req2 : WebAuthn.Request AuthenticationCredentialJSON) w :
  is_Some (WebAuthn.user (WebAuthn.locals req)) ->
  Js.truthy (WebAuthn.hostname (WebAuthn.locals req)) = false ->
  (exists j, (WebAuthn.authRequest G req entropy).1
             = WebAuthn.Sent 200 (WebAuthn.JsonOptions j)) ->
  WebAuthn.locals req2 = WebAuthn.locals req ->
  WebAuthn.session req2 = (WebAuthn.authRequest G req entropy).2 ->
  is_Some (WebAuthn.challenge (WebAuthn.session req2)) /\
  WebAuthn.authResponse V env tb req2 w
  = ((WebAuthn.Uncaught HostnameNotConfigured, WebAuthn.session req2), w).
Proof.
  intros [u Hu] Hh [j Hj] Hl Hs. split.
  - rewrite Hs. revert Hj. unfold WebAuthn.authRequest. rewrite Hu.
    destruct (WebAuthn.body req) as [b|]; [|discriminate].
    destruct (WebAuthn.generateAuthenticationOptions G entropy _) as [e|o];
      [discriminate|]. intros _. by eexists.
  - unfold WebAuthn.authResponse. rewrite Hl, Hu, Hh. reflexivity.
Qed.

Lemma authRequest_without_hostname_witness :
  let req := Issuing.authentication_request None Sample.idle in
  let s := (WebAuthn.authRequest Issuing.fixed req []).2 in
  let req2 :=
    {| WebAuthn.locals := WebAuthn.locals req; WebAuthn.session := s;
       WebAuthn.body := {| id := "YzE"; auth_response := "{}" |};
       WebAuthn.header_User_Agent := None; WebAuthn.useragent := None;
       WebAuthn.now := 2000 |} in
  WebAuthn.challenge s = Some "Tm9uY2U" /\
  WebAuthn.authResponse Sample.accepting Sample.no_android Sample.toBuffer req2
    Sample.registered_world
  = ((WebAuthn.Uncaught HostnameNotConfigured, s), Sample.registered_world).
Proof.
  intros req s req2. split; [reflexivity|].
  apply (authRequest_without_hostname Issuing.fixed Sample.accepting Sample.no_android
           Sample.toBuffer req [] req2 Sample.registered_world).
  - eexists. reflexivity.
  - reflexivity.
  - eexists. reflexivity.
  - reflexivity.
  - reflexivity.
Defined.

(** ** Response handlers *)

Section RegistrationFacts.
Import Credential WebAuthn.


End RegistrationFacts.



Section BindingFacts.
Import Credential WebAuthn.

Lemma registerResponse_try_events V env (req : Request RegistrationCredentialJSON) :
  steps (grows (registration_event
                  (default EmptyString (challenge (session req)))
                  (default EmptyString (hostname (locals req)))
                  (Js.or_default (type (session req)) "undefined")))
    (registerResponse_try V env req).
Proof.
  unfold registerResponse_try, verify_registration, register_verified.
  destruct (user (locals req)); [|steps_down].
  repeat (destruct (negb _); [steps_down|]).
  steps_down;
    solve [ apply grows_emit; simpl; auto
          | apply grows_call; simpl; auto ].
Qed.

Lemma or_default_idem x d : Js.or_default (Some (Js.or_default x d)) d = Js.or_default x d.
Proof. destruct x as [[|]|]; simpl; by destruct d. Qed.

Lemma registerRequest_issued_session G PROJECT_NAME sha256
    (req0 : Request (option WebAuthnRegistrationObject)) entropy j :
  (registerRequest G PROJECT_NAME sha256 req0 entropy).1 = Sent 200 (JsonOptions j) ->
  exists ch,
    challenge (registerRequest G PROJECT_NAME sha256 req0 entropy).2 = Some ch /\
    type (registerRequest G PROJECT_NAME sha256 req0 entropy).2 =
      Some (Js.or_default
              (cre_authenticatorSelection
                 (default empty_registration_object (body req0))
                 ≫= sel_authenticatorAttachment) "undefined").
Proof.
  unfold registerRequest.
  destruct (user (locals req0)) as [u|]; [|discriminate].
  destruct (negb _); [discriminate|].
  destruct (generateRegistrationOptions G entropy _) as [e|o]; [discriminate|].
  intros _. by eexists.
Qed.

End BindingFacts.

(** X16. The response phase of a registration is bound to its request
    phase through the session. After /registerRequest has issued
    options, the /registerResponse that runs on the session it left
    sends out nothing but verifications against the challenge that was
    issued and the configured hostname, writes of credentials that
    record the attachment exactly as the client requested it
    (recognised or not), and writes of device keys: it reads nothing
    and deletes nothing. *)
Theorem registration_phases_bound G PROJECT_NAME sha256 V env
    (req0 : WebAuthn.Request (option WebAuthn.WebAuthnRegistrationObject)) entropy
    (req : WebAuthn.Request RegistrationCredentialJSON) w :
  let issued := WebAuthn.registerRequest G PROJECT_NAME sha256 req0 entropy in
  let aa := WebAuthn.cre_authenticatorSelection
              (default WebAuthn.empty_registration_object (WebAuthn.body req0))
              ≫= WebAuthn.sel_authenticatorAttachment in
  (exists j, issued.1 = WebAuthn.Sent 200 (WebAuthn.JsonOptions j)) ->
  WebAuthn.session req = issued.2 ->
  WebAuthn.locals req = WebAuthn.locals req0 ->
  exists ch,
    WebAuthn.challenge issued.2 = Some ch /\
    grows (registration_event ch
             (default EmptyString (WebAuthn.hostname (WebAuthn.locals req0)))
             (Js.or_default aa "undefined"))
      w (WebAuthn.registerResponse V env req w).2.
Proof.
  intros issued aa [j Hj] Hs Hl.
  destruct (registerRequest_issued_session G PROJECT_NAME sha256 req0 entropy j Hj)
    as (ch & Hch & Hty).
  exists ch. split; [exact Hch|].
  rewrite snd_registerResponse.
  pose proof (registerResponse_try_events V env req w) as H.
  rewrite Hs, Hl in H. fold issued in Hch, Hty. rewrite Hch, Hty in H.
  rewrite or_default_idem in H. exact H.
Qed.

Lemma registration_phases_bound_witness :
  let req0 := Issuing.registration_request (Some Issuing.odd_request)
                (Some Sample.alice) Sample.idle in
  let issued := WebAuthn.registerRequest Issuing.fixed None Issuing.sha256 req0 [] in
  let req := Sample.registration (Some Sample.alice) issued.2 in
  exists ch,
    WebAuthn.challenge issued.2 = Some ch /\
    grows (registration_event ch "example.com" "usb") Sample.fresh
      (WebAuthn.registerResponse Sample.accepting Sample.no_android req Sample.fresh).2.
Proof.
  intros req0 issued req.
  apply (registration_phases_bound Issuing.fixed None Issuing.sha256 Sample.accepting
           Sample.no_android req0 [] req Sample.fresh).
  - eexists. reflexivity.
  - reflexivity.
  - reflexivity.
Defined.

(** X17. The response phase of an authentication is bound to its
    request phase in the same way: after /authRequest has issued
    options, every verification the following /authResponse asks for
    carries the challenge that was issued. *)
Theorem authentication_phases_bound G V env tb
    (req0 : WebAuthn.Request (option WebAuthn.WebAuthnAuthenticationObject)) entropy
    (req : WebAuthn.Request AuthenticationCredentialJSON) w :
  let issued := WebAuthn.authRequest G req0 entropy in
  (exists j, issued.1 = WebAuthn.Sent 200 (WebAuthn.JsonOptions j)) ->
  WebAuthn.session req = issued.2 ->
  exists ch,
    WebAuthn.challenge issued.2 = Some ch /\
    grows (fun e => forall opts, e = AuthenticationVerify opts ->
                                 expectedChallenge opts = ch)
      w (WebAuthn.authResponse V env tb req w).2.
Proof.
  intros issued [j Hj] Hs.
  assert (Hch : exists ch, WebAuthn.challenge issued.2 = Some ch).
  { subst issued. revert Hj. unfold WebAuthn.authRequest.
    destruct (WebAuthn.user _); [|discriminate].
    destruct (WebAuthn.body req0); [|discriminate].
    destruct (WebAuthn.generateAuthenticationOptions G entropy _); [discriminate|].
    intros _. by eexists. }
  destruct Hch as [ch Hch]. exists ch. split; [exact Hch|].
  destruct (snd_authResponse V env tb req w) as [->|(u & c & rp & o & -> & ->)];
    [apply grows_refl|].
  rewrite Hs, Hch.
  assert (Js.or_default (Some ch) EmptyString = ch) as -> by (by destruct ch).
  apply authResponse_try_challenge.
Qed.

Lemma authentication_phases_bound_witness :
  let req0 := Issuing.authentication_request (Some "example.com") Sample.idle in
  let issued := WebAuthn.authRequest Issuing.fixed req0 [] in
  let req := Sample.authentication (Some Sample.alice) issued.2 in
  exists ch,
    WebAuthn.challenge issued.2 = Some ch /\
    grows (fun e => forall opts, e = AuthenticationVerify opts ->
                                 expectedChallenge opts = ch)
      Sample.registered_world
      (WebAuthn.authResponse Sample.accepting Sample.no_android Sample.toBuffer req
         Sample.registered_world).2.
Proof.
  intros req0 issued req.
  apply (authentication_phases_bound Issuing.fixed Sample.accepting Sample.no_android
           Sample.toBuffer req0 [] req Sample.registered_world).
  - eexists. reflexivity.
  - reflexivity.
Defined.

(** X18. Neither response handler reads the deadline that the request
    handlers store in the session: with any other deadline, or none, in
    the session, /registerResponse and /authResponse give the same
    reply, leave the same session and have the same effect on the world.
    An expired challenge is accepted like a fresh one. *)
Theorem response_handlers_ignore_deadline V env tb t :
  (forall (req : WebAuthn.Request RegistrationCredentialJSON) w,
     WebAuthn.registerResponse V env (with_deadline t req) w
     = WebAuthn.registerResponse V env req w) /\
  (forall (req : WebAuthn.Request AuthenticationCredentialJSON) w,
     let a := WebAuthn.authResponse V env tb (with_deadline t req) w in
     let b := WebAuthn.authResponse V env tb req w in
     a.1.1 = b.1.1 /\ a.2 = b.2 /\ (replied b.1.1 -> a.1.2 = b.1.2)).
Proof.
  split.
  - intros req w. reflexivity.
  - intros req w. unfold WebAuthn.authResponse. cbn [with_deadline WebAuthn.locals
      WebAuthn.session WebAuthn.challenge WebAuthn.header_User_Agent].
    destruct (WebAuthn.user (WebAuthn.locals req)) as [u|]; [|by repeat split].
    destruct (negb _); [by repeat split|]. destruct (negb _); [by repeat split|].
    destruct (Origin.getOrigin _ _ _) as [e|o]; [by repeat split|].
    change (WebAuthn.authResponse_try V tb (with_deadline t req))
      with (WebAuthn.authResponse_try V tb req).
    by destruct (WebAuthn.authResponse_try V tb req u _ _ o w) as [[e|c] w'].
Qed.

Lemma response_handlers_ignore_deadline_witness :
  let req := Sample.authentication (Some Sample.alice) Sample.challenged in
  (WebAuthn.authResponse Sample.accepting Sample.no_android Sample.toBuffer
     (with_deadline (Some 0) req) Sample.registered_world).1.2
  = (WebAuthn.authResponse Sample.accepting Sample.no_android Sample.toBuffer
       req Sample.registered_world).1.2.
Proof.
  intros req.
  apply (proj2 (response_handlers_ignore_deadline Sample.accepting Sample.no_android
                  Sample.toBuffer (Some 0)) req Sample.registered_world).
  vm_compute. exact I.
Defined.

Section RejectedRegistration.
Import WebAuthn.

Lemma registerResponse_try_rejected V env (req : Request RegistrationCredentialJSON) w :
  ~ registration_accepted V env req ->
  exists e tr',
    registerResponse_try V env req w =
    (inl e, {| firestore := firestore w; faults := faults w; trace := tr' |}).
Proof.
  intros Hna. unfold registerResponse_try. destruct w as [fs fl tr].
  destruct (user (locals req)) as [u|] eqn:Hu; [|by eexists _, _].
  destruct (Js.truthy (challenge (session req))) eqn:Hc; simpl; [|by eexists _, _].
  destruct (Js.truthy (hostname (locals req))) eqn:Hh; simpl; [|by eexists _, _].
  destruct (Js.truthy (origin (locals req))) eqn:Ho; simpl; [|by eexists _, _].
  rewrite bind_run. unfold lift at 1.
  destruct (Origin.getOrigin _ _ _) as [e|o] eqn:Hg; [by eexists _, _|].
  rewrite bind_run. unfold verify_registration. rewrite bind_run.
  unfold emit, lift. cbn [fst snd].
  change {| reg_credential := body req;
            reg_expectedChallenge := default EmptyString (challenge (session req));
            reg_expectedOrigin := o;
            reg_expectedRPID := default EmptyString (hostname (locals req)) |}
    with (registration_verify_opts req o).
  destruct (verifyRegistrationResponse V (registration_verify_opts req o))
    as [e|v] eqn:Hv; [by eexists _, _|].
  destruct (reg_verified v) eqn:Hver; [|by eexists _, _].
  destruct (registrationInfo v) as [info|] eqn:Hinfo; [|by eexists _, _].
  exfalso. apply Hna. exists u, o, v, info. repeat split; assumption.
Qed.

End RejectedRegistration.

(** X19. /registerResponse stores nothing unless the registration is
    accepted: if a guard fails, the origin does not resolve, or the
    verifier throws or returns a result that is not verified or has no
    registration info, the call fails and the store is exactly as it
    was, whatever the backend would have done. *)
Theorem registerResponse_stores_only_accepted V env
    (req : WebAuthn.Request RegistrationCredentialJSON) w :
  ~ registration_accepted V env req ->
  let r := WebAuthn.registerResponse V env req w in
  WebAuthn.failure r.1.1 <> None /\ firestore r.2 = firestore w.
Proof.
  intros Hna r. subst r. unfold WebAuthn.registerResponse.
  destruct (registerResponse_try_rejected V env req w Hna) as (e & tr' & ->).
  by split.
Qed.

Lemma registerResponse_stores_only_accepted_witness :
  firestore
    (WebAuthn.registerResponse Sample.accepting Sample.no_android
       (Sample.registration (Some Sample.alice) Sample.idle) Scenario.populated).2
  = firestore Scenario.populated.
Proof.
  apply (registerResponse_stores_only_accepted Sample.accepting Sample.no_android
           (Sample.registration (Some Sample.alice) Sample.idle) Scenario.populated).
  intros (u & o & v & info & _ & Hc & _). vm_compute in Hc. discriminate Hc.
Defined.

Section CredentialsInvariant.
Import Credential WebAuthn.

#[local] Instance keeps_credentials_wf_refl : Reflexive keeps_credentials_wf.
Proof. intros w H. exact H. Qed.
#[local] Instance keeps_credentials_wf_trans : Transitive keeps_credentials_wf.
Proof. intros a b c H1 H2 H. apply H2, H1, H. Qed.

Lemma keeps_credentials_wf_call {A} e (f : Firestore -> A * Firestore) :
  (forall fs, credentials_wf fs -> credentials_wf (f fs).2) ->
  steps keeps_credentials_wf (call e f).
Proof. intros Hf. apply steps_call; intros w fl H; simpl; auto. Qed.

Lemma keeps_credentials_wf_emit e : steps keeps_credentials_wf (emit e).
Proof. intros w H. exact H. Qed.

Ltac credentials_wf_base :=
  first
    [ apply keeps_credentials_wf_emit
    | apply keeps_credentials_wf_call; intros fs Hfs; unfold credentials_wf in *;
      simpl;
      first [ exact Hfs
            | apply map_Forall_insert_2; [reflexivity | exact Hfs]
            | apply map_Forall_delete; exact Hfs ] ].

Lemma forEach_remove_keeps_credentials_wf items :
  steps keeps_credentials_wf (forEach_remove items).
Proof.
  induction items as [|d items IH]; simpl; steps_down; [|exact IH..].
  unfold removeDevicePublicKey. credentials_wf_base.
Qed.

(** The invariant of the [credentials] collection holds in every world
    the server can reach. *)
Lemma reachable_credentials_wf w : reachable w -> credentials_wf (firestore w).
Proof.
  induction 1 as [fl|fl w _ IH|uid w _ IH|cid w _ IH|c w _ IH|cid w _ IH|cid w _ IH
                 |d w _ IH|row w _ IH|V env req w _ IH|V env tb req w _ IH].
  - apply map_Forall_empty.
  - exact IH.
  - revert IH. assert (Hs : steps keeps_credentials_wf (getCredentials uid)); [|apply Hs].
    unfold getCredentials, getDevicePublicKeys. steps_down; credentials_wf_base.
  - revert IH. assert (Hs : steps keeps_credentials_wf (getCredential cid)); [|apply Hs].
    unfold getCredential. credentials_wf_base.
  - revert IH. assert (Hs : steps keeps_credentials_wf (storeCredential c)); [|apply Hs].
    unfold storeCredential. credentials_wf_base.
  - revert IH. assert (Hs : steps keeps_credentials_wf (removeCredential cid)); [|apply Hs].
    unfold removeCredential, delete_reference, getDevicePublicKeys. steps_down;
      try apply forEach_remove_keeps_credentials_wf; credentials_wf_base.
  - revert IH.
    assert (Hs : steps keeps_credentials_wf (getDevicePublicKeys cid)); [|apply Hs].
    unfold getDevicePublicKeys. credentials_wf_base.
  - revert IH.
    assert (Hs : steps keeps_credentials_wf (removeDevicePublicKey d)); [|apply Hs].
    unfold removeDevicePublicKey. credentials_wf_base.
  - revert IH.
    assert (Hs : steps keeps_credentials_wf (storeDevicePublicKey row)); [|apply Hs].
    unfold storeDevicePublicKey. credentials_wf_base.
  - rewrite snd_registerResponse. revert IH.
    assert (Hs : steps keeps_credentials_wf (registerResponse_try V env req)); [|apply Hs].
    unfold registerResponse_try, verify_registration, register_verified,
      storeCredential, storeDevicePublicKey.
    destruct (user (locals req)); [|steps_down].
    repeat (destruct (negb _); [steps_down|]).
    steps_down; credentials_wf_base.
  - destruct (snd_authResponse V env tb req w) as [->|(u & c & r & o & -> & _)];
      [exact IH|]. revert IH.
    assert (Hs : steps keeps_credentials_wf (authResponse_try V tb req u c r o));
      [|apply Hs].
    unfold authResponse_try, verify_authentication, auth_verified, getCredentials,
      getDevicePublicKeys, storeDevicePublicKey.
    steps_down; credentials_wf_base.
Qed.

End CredentialsInvariant.



Section VerifiedAuthenticationRun.
Import Credential WebAuthn.


End VerifiedAuthenticationRun.



(** ** base64url *)

Section Base64Facts.
Import Base64url.

Lemma octet_bounds b : 0 <= octet b < 256.
Proof.
  unfold octet. pose proof (Byte.to_N_bounded b) as H. split; [lia|].
  apply N2Z.inj_le in H. simpl in H. lia.
Qed.

Lemma forallb_below (P : Z -> bool) n :
  forallb P (below n) = true -> forall z, 0 <= z < Z.of_nat n -> P z = true.
Proof.
  intros H z Hz. rewrite forallb_forall in H. apply H.
  apply list_elem_of_In, list_elem_of_fmap. exists (Z.to_nat z).
  split; [lia|]. apply list_elem_of_In, in_seq. lia.
Qed.

Lemma forallb_below2 (P : Z -> Z -> bool) n m :
  forallb (fun a => forallb (P a) (below m)) (below n) = true ->
  forall a b, 0 <= a < Z.of_nat n -> 0 <= b < Z.of_nat m -> P a b = true.
Proof.
  intros H a b Ha Hb.
  apply (forallb_below (P a) m); [|exact Hb].
  apply (forallb_below (fun a => forallb (P a) (below m)) n H a Ha).
Qed.

Lemma good_sextet1 a : good_sextet (sextet1 (octet a)) = true.
Proof.
  apply (forallb_below (fun z => good_sextet (sextet1 z)) 256);
    [vm_compute; reflexivity | apply octet_bounds].
Qed.

Lemma good_sextet2 a b : good_sextet (sextet2 (octet a) (octet b)) = true.
Proof.
  apply (forallb_below2 (fun x y => good_sextet (sextet2 x y)) 256 256);
    [vm_compute; reflexivity | apply octet_bounds | apply octet_bounds].
Qed.

Lemma good_sextet3 b c : good_sextet (sextet3 (octet b) (octet c)) = true.
Proof.
  apply (forallb_below2 (fun x y => good_sextet (sextet3 x y)) 256 256);
    [vm_compute; reflexivity | apply octet_bounds | apply octet_bounds].
Qed.

Lemma good_sextet4 c : good_sextet (sextet4 (octet c)) = true.
Proof.
  apply (forallb_below (fun z => good_sextet (sextet4 z)) 256);
    [vm_compute; reflexivity | apply octet_bounds].
Qed.

Lemma fromBase64_good n rest :
  good_sextet n = true ->
  fromBase64 (String (sextet n) rest) = String (url_of (sextet n)) (fromBase64 rest) /\
  url_safe (url_of (sextet n)) = true.
Proof.
  unfold good_sextet. intros H. apply andb_true_iff in H as [Hne Hsafe].
  split; [|exact Hsafe]. simpl. unfold url_of.
  destruct (Ascii.eqb (sextet n) "="); [discriminate Hne|].
  destruct (Ascii.eqb (sextet n) "+"); [reflexivity|].
  destruct (Ascii.eqb (sextet n) "/"); reflexivity.
Qed.

Lemma encode_nil : encode [] = EmptyString.
Proof. reflexivity. Qed.

Lemma encode_one a :
  encode [a] =
  String (url_of (sextet (sextet1 (octet a))))
    (String (url_of (sextet (sextet2 (octet a) 0))) EmptyString).
Proof.
  unfold encode. cbn [base64].
  change (Z.shiftr (octet a) 2) with (sextet1 (octet a)).
  replace (Z.shiftl (Z.land (octet a) 3) 4) with (sextet2 (octet a) 0)
    by (unfold sextet2; apply Z.lor_0_r).
  rewrite (proj1 (fromBase64_good _ _ (good_sextet1 a))).
  assert (H0 : good_sextet (sextet2 (octet a) 0) = true).
  { apply (forallb_below (fun z => good_sextet (sextet2 z 0)) 256);
      [vm_compute; reflexivity | apply octet_bounds]. }
  rewrite (proj1 (fromBase64_good _ _ H0)). reflexivity.
Qed.

Lemma encode_two a b :
  encode [a; b] =
  String (url_of (sextet (sextet1 (octet a))))
    (String (url_of (sextet (sextet2 (octet a) (octet b))))
       (String (url_of (sextet (sextet3 (octet b) 0))) EmptyString)).
Proof.
  unfold encode. cbn [base64].
  change (Z.shiftr (octet a) 2) with (sextet1 (octet a)).
  change (Z.lor (Z.shiftl (Z.land (octet a) 3) 4) (Z.shiftr (octet b) 4))
    with (sextet2 (octet a) (octet b)).
  replace (Z.shiftl (Z.land (octet b) 15) 2) with (sextet3 (octet b) 0)
    by (unfold sextet3; apply Z.lor_0_r).
  rewrite (proj1 (fromBase64_good _ _ (good_sextet1 a))).
  rewrite (proj1 (fromBase64_good _ _ (good_sextet2 a b))).
  assert (H0 : good_sextet (sextet3 (octet b) 0) = true).
  { apply (forallb_below (fun z => good_sextet (sextet3 z 0)) 256);
      [vm_compute; reflexivity | apply octet_bounds]. }
  rewrite (proj1 (fromBase64_good _ _ H0)). reflexivity.
Qed.

Lemma encode_three a b c l :
  encode (a :: b :: c :: l) =
  String (url_of (sextet (sextet1 (octet a))))
    (String (url_of (sextet (sextet2 (octet a) (octet b))))
       (String (url_of (sextet (sextet3 (octet b) (octet c))))
          (String (url_of (sextet (sextet4 (octet c)))) (encode l)))).
Proof.
  unfold encode. cbn [base64].
  change (Z.shiftr (octet a) 2) with (sextet1 (octet a)).
  change (Z.lor (Z.shiftl (Z.land (octet a) 3) 4) (Z.shiftr (octet b) 4))
    with (sextet2 (octet a) (octet b)).
  change (Z.lor (Z.shiftl (Z.land (octet b) 15) 2) (Z.shiftr (octet c) 6))
    with (sextet3 (octet b) (octet c)).
  change (Z.land (octet c) 63) with (sextet4 (octet c)).
  rewrite (proj1 (fromBase64_good _ _ (good_sextet1 a))).
  rewrite (proj1 (fromBase64_good _ _ (good_sextet2 a b))).
  rewrite (proj1 (fromBase64_good _ _ (good_sextet3 b c))).
  rewrite (proj1 (fromBase64_good _ _ (good_sextet4 c))). reflexivity.
Qed.

(** Induction over a list three elements at a time. *)
Lemma list_ind3 {A} (P : list A -> Prop) :
  P [] -> (forall a, P [a]) -> (forall a b, P [a; b]) ->
  (forall a b c l, P l -> P (a :: b :: c :: l)) ->
  forall l, P l.
Proof.
  intros H0 H1 H2 H3.
  assert (H : forall l, P l /\ (forall a, P (a :: l)) /\ (forall a b, P (a :: b :: l))).
  { induction l as [|x l (IH0 & IH1 & IH2)]; [by repeat split|].
    split; [exact (IH1 x)|]. split; [intros a; exact (IH2 a x)|].
    intros a b. exact (H3 a b x l IH0). }
  intros l. apply H.
Qed.

End Base64Facts.

(** X22. [base64url.encode], as the handlers apply it to credential ids,
    public keys and device keys: the text only has characters of
    [A-Za-z0-9_-] (no [+], [/] or padding), and [n] bytes give
    [(4n+2)/3] characters, rounded down. *)
Theorem encode_url_safe (bs : list byte) :
  string_forall url_safe (Base64url.encode bs) = true /\
  String.length (Base64url.encode bs) = ((4 * List.length bs + 2) / 3)%nat.
Proof.
  induction bs as [|a|a b|a b c l [IHs IHl]] using list_ind3.
  - split; reflexivity.
  - rewrite encode_one. split; [|reflexivity]. cbn [string_forall].
    rewrite (proj2 (fromBase64_good _ EmptyString (good_sextet1 a))).
    assert (H0 : good_sextet (sextet2 (Base64url.octet a) 0) = true).
    { apply (forallb_below (fun z => good_sextet (sextet2 z 0)) 256);
        [vm_compute; reflexivity | apply octet_bounds]. }
    rewrite (proj2 (fromBase64_good _ EmptyString H0)). reflexivity.
  - rewrite encode_two. split; [|reflexivity]. cbn [string_forall].
    rewrite (proj2 (fromBase64_good _ EmptyString (good_sextet1 a))).
    rewrite (proj2 (fromBase64_good _ EmptyString (good_sextet2 a b))).
    assert (H0 : good_sextet (sextet3 (Base64url.octet b) 0) = true).
    { apply (forallb_below (fun z => good_sextet (sextet3 z 0)) 256);
        [vm_compute; reflexivity | apply octet_bounds]. }
    rewrite (proj2 (fromBase64_good _ EmptyString H0)). reflexivity.
  - rewrite encode_three. split.
    + cbn [string_forall].
      rewrite (proj2 (fromBase64_good _ EmptyString (good_sextet1 a))).
      rewrite (proj2 (fromBase64_good _ EmptyString (good_sextet2 a b))).
      rewrite (proj2 (fromBase64_good _ EmptyString (good_sextet3 b c))).
      rewrite (proj2 (fromBase64_good _ EmptyString (good_sextet4 c))).
      exact IHs.
    + cbn [String.length List.length]. rewrite IHl.
      replace (4 * S (S (S (List.length l))) + 2)%nat
        with (4 * 3 + (4 * List.length l + 2))%nat by lia.
      rewrite Nat.div_add_l by lia. lia.
Qed.

Section Base64Inverse.
Import Base64url.

Lemma octets_first a b :
  Z.lor (Z.shiftl (sextet_index (sextet1 (octet a))) 2)
        (Z.shiftr (sextet_index (sextet2 (octet a) (octet b))) 4) = octet a.
Proof.
  apply Z.eqb_eq.
  apply (forallb_below2
           (fun x y => Z.lor (Z.shiftl (sextet_index (sextet1 x)) 2)
                             (Z.shiftr (sextet_index (sextet2 x y)) 4) =? x) 256 256);
    [vm_compute; reflexivity | apply octet_bounds | apply octet_bounds].
Qed.

Lemma octets_first_last a :
  Z.lor (Z.shiftl (sextet_index (sextet1 (octet a))) 2)
        (Z.shiftr (sextet_index (sextet2 (octet a) 0)) 4) = octet a.
Proof.
  apply Z.eqb_eq.
  apply (forallb_below
           (fun x => Z.lor (Z.shiftl (sextet_index (sextet1 x)) 2)
                           (Z.shiftr (sextet_index (sextet2 x 0)) 4) =? x) 256);
    [vm_compute; reflexivity | apply octet_bounds].
Qed.

Lemma octets_second_high a b :
  Z.shiftl (Z.land (sextet_index (sextet2 (octet a) (octet b))) 15) 4 =
  Z.shiftl (Z.shiftr (octet b) 4) 4.
Proof.
  apply Z.eqb_eq.
  apply (forallb_below2
           (fun x y => Z.shiftl (Z.land (sextet_index (sextet2 x y)) 15) 4
                       =? Z.shiftl (Z.shiftr y 4) 4) 256 256);
    [vm_compute; reflexivity | apply octet_bounds | apply octet_bounds].
Qed.

Lemma octets_second_low b c :
  Z.lor (Z.shiftl (Z.shiftr (octet b) 4) 4)
        (Z.shiftr (sextet_index (sextet3 (octet b) (octet c))) 2) = octet b.
Proof.
  apply Z.eqb_eq.
  apply (forallb_below2
           (fun x y => Z.lor (Z.shiftl (Z.shiftr x 4) 4)
                             (Z.shiftr (sextet_index (sextet3 x y)) 2) =? x) 256 256);
    [vm_compute; reflexivity | apply octet_bounds | apply octet_bounds].
Qed.

Lemma octets_second_low_last b :
  Z.lor (Z.shiftl (Z.shiftr (octet b) 4) 4)
        (Z.shiftr (sextet_index (sextet3 (octet b) 0)) 2) = octet b.
Proof.
  apply Z.eqb_eq.
  apply (forallb_below
           (fun x => Z.lor (Z.shiftl (Z.shiftr x 4) 4)
                           (Z.shiftr (sextet_index (sextet3 x 0)) 2) =? x) 256);
    [vm_compute; reflexivity | apply octet_bounds].
Qed.

Lemma octets_third b c :
  Z.lor (Z.shiftl (Z.land (sextet_index (sextet3 (octet b) (octet c))) 3) 6)
        (sextet_index (sextet4 (octet c))) = octet c.
Proof.
  apply Z.eqb_eq.
  apply (forallb_below2
           (fun x y => Z.lor (Z.shiftl (Z.land (sextet_index (sextet3 x y)) 3) 6)
                             (sextet_index (sextet4 y)) =? y) 256 256);
    [vm_compute; reflexivity | apply octet_bounds | apply octet_bounds].
Qed.

Lemma octets_of_encode bs : octets_of (encode bs) = octet <$> bs.
Proof.
  induction bs as [|a|a b|a b c l IH] using list_ind3.
  - reflexivity.
  - rewrite encode_one. cbn [octets_of fmap list_fmap].
    fold (sextet_index (sextet1 (octet a))). fold (sextet_index (sextet2 (octet a) 0)).
    by rewrite octets_first_last.
  - rewrite encode_two. cbn [octets_of fmap list_fmap].
    fold (sextet_index (sextet1 (octet a))). fold (sextet_index (sextet2 (octet a) (octet b))).
    fold (sextet_index (sextet3 (octet b) 0)).
    by rewrite octets_first, octets_second_high, octets_second_low_last.
  - rewrite encode_three. cbn [octets_of fmap list_fmap].
    fold (sextet_index (sextet1 (octet a))). fold (sextet_index (sextet2 (octet a) (octet b))).
    fold (sextet_index (sextet3 (octet b) (octet c))). fold (sextet_index (sextet4 (octet c))).
    by rewrite octets_first, octets_second_high, octets_second_low,
      octets_third, IH.
Qed.

Lemma octet_inj a b : octet a = octet b -> a = b.
Proof.
  unfold octet. intros H. apply N2Z.inj in H.
  pose proof (Byte.of_to_N a) as Ha. rewrite H, Byte.of_to_N in Ha.
  congruence.
Qed.

Lemma fmap_octet_inj (bs bs' : list byte) :
  octet <$> bs = octet <$> bs' -> bs = bs'.
Proof.
  revert bs'. induction bs as [|a bs IH]; intros [|b bs'] H;
    try discriminate H; [reflexivity|].
  rewrite !fmap_cons in H. injection H as Hab Hrest.
  f_equal; [by apply octet_inj | by apply IH].
Qed.

End Base64Inverse.

(** X23. [base64url.encode] loses nothing: two byte strings with the same
    encoding are the same, so distinct credential ids (and distinct device
    keys) never share a document key. *)
Theorem encode_injective (bs bs' : list byte) :
  Base64url.encode bs = Base64url.encode bs' -> bs = bs'.
Proof.
  intros H. apply fmap_octet_inj.
  rewrite <- !octets_of_encode. by rewrite H.
Qed.

Lemma encode_injective_witness :
  Base64url.encode [x09] = "CQ" /\ [x09] = [x09 : byte].
Proof.
  split; [reflexivity|].
  apply (encode_injective [x09] [x09]). reflexivity.
Defined.

(** ** The origin resolver *)

Section OriginOutcomes.
Import Origin.

Lemma scan_outcomes tok names hs i o :
  scan tok names hs i o = inr o \/
  (exists bs, scan tok names hs i o =
                inr ("android:apk-key-hash:" +:+ Base64url.encode bs)) \/
  (scan tok names hs i o = inl TypeError_split /\
   (List.length hs < i + List.length names)%nat).
Proof.
  revert i. induction names as [|n names IH]; intros i; [by left|].
  cbn [scan]. destruct (String.eqb tok n).
  - destruct (hs !! i) as [h|] eqn:Hh.
    + right; left. eexists. reflexivity.
    + right; right. split; [reflexivity|].
      apply lookup_ge_None in Hh. cbn [List.length]. lia.
  - destruct (IH (S i)) as [H|[H|[H Hlen]]]; [by left | by right; left |].
    right; right. split; [exact H|]. cbn [List.length]. lia.
Qed.

Lemma split_nonempty sep s : exists h t, Js.split sep s = h :: t.
Proof.
  induction s as [|c s (h & t & IH)]; [by eexists _, _|].
  cbn [Js.split]. destruct (Ascii.eqb c sep); [by eexists _, _|].
  rewrite IH. by eexists _, _.
Qed.

Lemma split_other sep c s :
  Ascii.eqb c sep = false ->
  Js.split sep (String c s) =
    match Js.split sep s with
    | h :: t => String c h :: t
    | [] => [String c EmptyString]
    end.
Proof. intros H. cbn [Js.split]. by rewrite H. Qed.

Lemma hex_char_no_colon n : Ascii.eqb (hex_char n) ":" = false.
Proof.
  unfold hex_char. destruct (Z.to_nat n) as [|k]; [reflexivity|].
  do 15 (destruct k as [|k]; [reflexivity|]). reflexivity.
Qed.

Lemma split_hex2 a : Js.split ":" (hex2 a) = [hex2 a].
Proof.
  unfold hex2. rewrite !split_other by apply hex_char_no_colon. reflexivity.
Qed.

Lemma split_hex2_more a s :
  Js.split ":" (hex2 a +:+ String ":"%char s) = hex2 a :: Js.split ":" s.
Proof.
  unfold hex2.
  change (String ?c1 (String ?c2 EmptyString) +:+ ?r)
    with (String c1 (String c2 r)).
  rewrite (split_other _ _ _ (hex_char_no_colon _)).
  rewrite (split_other _ _ _ (hex_char_no_colon _)).
  cbn [Js.split Ascii.eqb Bool.eqb]. reflexivity.
Qed.

Lemma split_fingerprint bs :
  bs ≠ [] -> Js.split ":" (fingerprint bs) = hex2 <$> bs.
Proof.
  induction bs as [|a bs IH]; [done|]. intros _.
  destruct bs as [|b bs]; [apply split_hex2|].
  change (fingerprint (a :: b :: bs))
    with (hex2 a +:+ String ":"%char (fingerprint (b :: bs))).
  rewrite split_hex2_more, IH by done. reflexivity.
Qed.

Lemma to_uint8_hex2 a : Js.to_uint8 (Js.parseInt16 (hex2 a)) = a.
Proof. destruct a; vm_compute; reflexivity. Qed.

Lemma encode_array_fingerprint bs :
  bs ≠ [] ->
  Base64url.encode_array (Js.parseInt16 <$> Js.split ":" (fingerprint bs)) =
  Base64url.encode bs.
Proof.
  intros Hbs. unfold Base64url.encode_array.
  rewrite split_fingerprint by exact Hbs. f_equal.
  clear Hbs. induction bs as [|a bs IH]; [reflexivity|].
  rewrite !fmap_cons, to_uint8_hex2. by f_equal.
Qed.

End OriginOutcomes.

(** X24. [getOrigin] has three outcomes and no other: the declared origin,
    unchanged; an [android:apk-key-hash:] origin whose hash is the
    base64url text of some bytes; or a TypeError, thrown only when the
    list of hashes is shorter than the list of package names. *)
Theorem getOrigin_outcomes env o ua :
  Origin.getOrigin env o ua = inr o \/
  (exists bs, Origin.getOrigin env o ua =
                inr ("android:apk-key-hash:" +:+ Base64url.encode bs)) \/
  (Origin.getOrigin env o ua = inl TypeError_split /\
   (List.length (hashes env) < List.length (package_names env))%nat).
Proof.
  unfold Origin.getOrigin. destruct (negb _); [by left|].
  destruct (Origin.match_prefix _ _) as [tok|]; [|by left].
  destruct (_ && _); [|by left].
  apply (scan_outcomes tok (package_names env) (hashes env) 0%nat o).
Qed.

(** X25. When the user agent names a configured package and the hash at
    the same position is a certificate fingerprint (colon-separated
    hexadecimal bytes), [getOrigin] answers the [android:apk-key-hash:]
    origin of exactly those bytes. *)
Theorem getOrigin_fingerprint env o ua tok j bs :
  Js.truthy (Origin.ANDROID_PACKAGENAME env) = true ->
  Js.truthy (Origin.ANDROID_SHA256HASH env) = true ->
  Origin.match_prefix Origin.appRe_class ua = Some tok ->
  package_names env !! j = Some tok ->
  (forall j', (j' < j)%nat -> package_names env !! j' ≠ Some tok) ->
  hashes env !! j = Some (fingerprint bs) ->
  bs ≠ [] ->
  Origin.getOrigin env o (Some ua) =
    inr ("android:apk-key-hash:" +:+ Base64url.encode bs).
Proof.
  intros Hp Hh Hm Hj Hfirst Hhash Hbs. unfold Origin.getOrigin.
  assert (Js.truthy (Some ua) = true) as ->.
  { destruct ua; [discriminate Hm | reflexivity]. }
  simpl. rewrite Hm, Hp, Hh. simpl.
  rewrite <- (encode_array_fingerprint bs Hbs).
  exact (scan_recognized tok (package_names env) (hashes env) 0%nat j
           (fingerprint bs) o Hj Hfirst Hhash).
Qed.

Lemma getOrigin_fingerprint_witness :
  Origin.getOrigin
    {| Origin.ANDROID_PACKAGENAME := Some "com.example.app, org.other";
       Origin.ANDROID_SHA256HASH := Some "AA:BB:CC:FF, 01:02" |}
    "https://example.com" (Some "org.other/2.1")
  = inr ("android:apk-key-hash:" +:+ Base64url.encode [x01; x02]).
Proof.
  apply (getOrigin_fingerprint _ _ _ "org.other" 1%nat [x01; x02]);
    try reflexivity; try done.
  intros [|j'] Hlt; [vm_compute; congruence | lia].
Defined.
